(** * server-timing-header: the [ServerTiming] session and its Express middleware

    A shallow embedding of [index.js] (package [server-timing-header] 1.9.0)
    and the properties of its recording API, hook chain and header writer.

    Conventions of the embedding.
    - A JavaScript string is a [string]: a sequence of code units, here
      restricted to the range 0..255.
    - A JavaScript number is a mathematical integer ([Z]), or [NaN] where the
      code can produce it: durations, indices and the components of a
      timestamp are integers below [10^21], which are printed with all their
      digits.  The conversion of a timestamp to milliseconds is computed as
      the code computes it, in double precision: [Double] gives the products
      and the sum with their rounding.
    - [process.hrtime()] is read from a [Process] that hands out one reading
      per call.
    - A call is a function of the [World] (the clock, the session [this] and
      the response) that returns how it completed and the world it left; the
      world is kept when the call throws.  A call that assigns through the
      accessor [__proto__] ends as [PrototypeWrite]: the prototypes of the
      objects are not part of the world, and what the program does after
      such a write is not described.
    - [this.metrics] is kept as the list of its own properties in creation
      order; [Object_entries] puts them in the order in which the engine
      enumerates them.  Property names that [Object.prototype] already
      defines are treated as the language does (see [lookupProperty]).
    - A hook is a function from metrics to metrics: hooks that throw, read
      the clock or change the session are not described.
    - The response is the object the tests of the package use: [set] stores
      the values under [headers].  It has the flag [headersSent] of the
      responses of Express; the property [headerSent], which [addHeaders]
      reads, is one that these responses do not define. *)

From Stdlib Require Import String Ascii List Bool ZArith NArith QArith Qround Lia.
From Stdlib Require Import Qabs Qpower Lqa Permutation Sorted DecimalString.
From Stdlib Require PrimFloat FloatOps SpecFloat Uint63.
Import ListNotations.

Local Open Scope string_scope.
Local Open Scope list_scope.
Local Open Scope Z_scope.

(** ** Regular expressions

    The two regular expression literals of the source only use pattern
    characters, character classes, [.], [+] on a single atom, one capturing
    group and the anchors.  [matchHere] returns every way the pattern can match
    at the current position, in the order in which a backtracking matcher
    tries them, so that the head of the list is the match that is found. *)

Module RegExp.

Inductive Atom : Type :=
| Char (c : ascii)                 (* a pattern character *)
| Class (members : ascii -> bool)  (* [...] *)
| Dot.                             (* . *)

Inductive Pattern : Type :=
| Empty                            (* matches the empty string *)
| One (a : Atom)
| Plus (a : Atom)                  (* a+, greedy *)
| Bol                              (* ^ *)
| Eol                              (* $ *)
| Seq (p q : Pattern)
| Group (p : Pattern).             (* ( ... ) *)

(** Position in the input: what is left to read and how much was read. *)
Record Cursor : Type := { rest : string; index : nat; captures : list string }.

Definition inRange (lo hi c : ascii) : bool :=
  (N_of_ascii lo <=? N_of_ascii c)%N && (N_of_ascii c <=? N_of_ascii hi)%N.

(** Canonicalize of the [i] flag (without [u]): the upper-case form. *)
Definition canonicalize (ignoreCase : bool) (c : ascii) : ascii :=
  if ignoreCase && inRange "a" "z" c
  then ascii_of_N (N_of_ascii c - 32)
  else c.

Definition allChars : list ascii := map ascii_of_nat (seq 0 256).

Definition isLineTerminator (c : ascii) : bool :=
  Ascii.eqb c "010" || Ascii.eqb c "013".

Definition atomMatches (ignoreCase : bool) (a : Atom) (ch : ascii) : bool :=
  match a with
  | Char c => Ascii.eqb (canonicalize ignoreCase c) (canonicalize ignoreCase ch)
  | Class members =>
      existsb (fun m => members m &&
                 Ascii.eqb (canonicalize ignoreCase m) (canonicalize ignoreCase ch))
              allChars
  | Dot => negb (isLineTerminator ch)
  end.

(** All the ways [a+] can match at the start of [s], the longest first; each
    is given as the number of characters taken and the rest of the input. *)
Fixpoint plusMatches (ignoreCase : bool) (a : Atom) (s : string)
  : list (nat * string) :=
  match s with
  | EmptyString => []
  | String ch s' =>
      if atomMatches ignoreCase a ch
      then map (fun '(n, r) => (S n, r)) (plusMatches ignoreCase a s') ++ [(1%nat, s')]
      else []
  end.

Fixpoint matchHere (ignoreCase : bool) (p : Pattern) (c : Cursor) : list Cursor :=
  match p with
  | Empty => [c]
  | One a =>
      match rest c with
      | EmptyString => []
      | String ch s' =>
          if atomMatches ignoreCase a ch
          then [{| rest := s'; index := S (index c); captures := captures c |}]
          else []
      end
  | Plus a =>
      map (fun '(n, r) =>
             {| rest := r; index := (index c + n)%nat; captures := captures c |})
          (plusMatches ignoreCase a (rest c))
  | Bol => if Nat.eqb (index c) 0 then [c] else []
  | Eol => match rest c with EmptyString => [c] | _ => [] end
  | Seq p q => flat_map (matchHere ignoreCase q) (matchHere ignoreCase p c)
  | Group p =>
      map (fun c' =>
             {| rest := rest c'; index := index c';
                captures := captures c' ++
                  [substring 0 (index c' - index c) (rest c)] |})
          (matchHere ignoreCase p c)
  end.

(** [exec] on a regular expression object whose [lastIndex] is 0, as it is
    for a literal, which is evaluated anew at each call (so the flag [g] has no
    effect): the leftmost position at which the pattern matches, with its
    captures. *)
Fixpoint execFrom (ignoreCase : bool) (p : Pattern) (i : nat) (s : string)
  : option (list string) :=
  match matchHere ignoreCase p {| rest := s; index := i; captures := [] |} with
  | c :: _ => Some (captures c)
  | [] =>
      match s with
      | EmptyString => None
      | String _ s' => execFrom ignoreCase p (S i) s'
      end
  end.

Definition exec (ignoreCase : bool) (p : Pattern) (s : string) : option (list string) :=
  execFrom ignoreCase p 0 s.

Definition test (ignoreCase : bool) (p : Pattern) (s : string) : bool :=
  match exec ignoreCase p s with Some _ => true | None => false end.

(** A sequence of pattern characters. *)
Fixpoint literal (s : string) : Pattern :=
  match s with
  | EmptyString => Empty
  | String c s' => Seq (One (Char c)) (literal s')
  end.

End RegExp.

(** ** Numbers and strings of the language *)

Inductive number : Type :=
| NaN
| Int (z : Z).

Definition isDigit (c : ascii) : bool := RegExp.inRange "0" "9" c.

Definition digitValue (c : ascii) : Z := Z.of_N (N_of_ascii c) - 48.

Fixpoint parseDigits (acc : Z) (s : string) : Z :=
  match s with
  | String c s' => if isDigit c then parseDigits (acc * 10 + digitValue c) s' else acc
  | EmptyString => acc
  end.

(** [parseInt(s, 10)] on a string without sign or leading white space: the
    value of the leading digits, [NaN] when there is none. *)
Definition parseInt (s : string) : number :=
  match s with
  | String c _ => if isDigit c then Int (parseDigits 0 s) else NaN
  | EmptyString => NaN
  end.

(** [v > n] where [v] is [null] ([None]) or a number: [null] converts to 0
    and every comparison with [NaN] is false. *)
Definition greaterThan (v : option number) (n : Z) : bool :=
  match v with
  | None => 0 >? n
  | Some NaN => false
  | Some (Int z) => z >? n
  end.

(** [String.prototype.indexOf]: position of the first occurrence, or -1. *)
Fixpoint indexOfFrom (i : Z) (s pat : string) : Z :=
  if prefix pat s then i
  else match s with
       | EmptyString => -1
       | String _ s' => indexOfFrom (i + 1) s' pat
       end.

Definition indexOf (s pat : string) : Z := indexOfFrom 0 s pat.

(** Number to string conversion on integers: all the digits, as the language
    prints an integer below [10^21]. *)
Definition numberToString (z : Z) : string := NilEmpty.string_of_int (Z.to_int z).

(** A string is truthy when it is not empty; a number when it is not zero. *)
Definition truthyString (s : string) : bool :=
  match s with EmptyString => false | _ => true end.

Definition truthyNumber (z : Z) : bool := negb (z =? 0).

(** ** Numbers in double precision

    A finite double is the rational number it stands for.  An operation
    gives the double nearest to the exact result, the one with an even last
    bit when two are as near (IEEE 754 binary64, round to nearest even): 53
    bits of precision, the last one of weight [2^exponent].  The results of
    the operations below stay far from the largest double, so that overflow
    is not described. *)

Module Double.

(** [floor (log2 x)] for a positive [x]. *)
Definition ilog2 (x : Q) : Z :=
  if Qle_bool 1 x then Z.log2 (Qfloor x) else - Z.log2_up (Qceiling (/ x)).

(** The weight of the last bit of the doubles around [x]; [-1074] is that of
    the subnormal numbers. *)
Definition exponent (x : Q) : Z := Z.max (ilog2 (Qabs x) - 52) (-1074).

(** The nearest integer, the even one when two are as near. *)
Definition nearestEven (q : Q) : Z :=
  let f := Qfloor q in
  match Qcompare (q - inject_Z f) (1 # 2) with
  | Lt => f
  | Gt => f + 1
  | Eq => if Z.even f then f else f + 1
  end.

(** The double nearest to [x]. *)
Definition round (x : Q) : Q :=
  if Qeq_bool x 0 then 0
  else Qred (inject_Z (nearestEven (x / 2 ^ exponent x)) * 2 ^ exponent x).

(** [x * y] and [x + y] on doubles. *)
Definition mul (x y : Q) : Q := round (x * y).

Definition add (x y : Q) : Q := round (x + y).

End Double.

(** The same conversion on the binary64 numbers of the machine, against
    which [Double] is checked on sample timestamps. *)

Module Binary64.

Import PrimFloat.

Definition ofZ (z : Z) : float := of_uint63 (Uint63.of_Z z).

(** [s * 1e3 + ns * 1e-6] *)
#[warnings="-inexact-float"]
Definition milliseconds (s ns : Z) : float :=
  (ofZ s * 1e3 + ofZ ns * 1e-6)%float.

(** The number a finite double stands for. *)
Definition toQ (x : float) : option Q :=
  match FloatOps.Prim2SF x with
  | SpecFloat.S754_zero _ => Some 0%Q
  | SpecFloat.S754_finite s m e =>
      Some (Qred (inject_Z (SpecFloat.cond_Zopp s (Zpos m)) * 2 ^ e))
  | _ => None
  end.

End Binary64.

(** ** [Array.prototype.sort]

    The sort is stable (ECMAScript 2019, Node.js 11 and later): of two
    elements that the comparison function does not order, the one that was
    first stays first. *)

Section ArraySort.
Context {A : Type} (comparefn : A -> A -> Z).

Fixpoint insertSorted (x : A) (l : list A) : list A :=
  match l with
  | [] => [x]
  | y :: l' => if comparefn x y <=? 0 then x :: l else y :: insertSorted x l'
  end.

Fixpoint Array_sort (l : list A) : list A :=
  match l with
  | [] => []
  | x :: l' => insertSorted x (Array_sort l')
  end.

End ArraySort.

(** ** Data *)

(** A reading of [process.hrtime()]: [[seconds, nanoseconds]]. *)
Definition hrtime : Type := (Z * Z)%type.

Module Metric.

(** One entry of [this.metrics]; [None] is a field that is [undefined]. *)
Record t : Type := {
  from : option hrtime;
  to : option hrtime;
  description : option string;
  duration : option Z
}.

Definition empty : t :=
  {| from := None; to := None; description := None; duration := None |}.

End Metric.

(** Own properties of a metrics object, in the order of their creation. *)
Definition Metrics : Type := list (string * Metric.t).

Module Hook.

Record t : Type := {
  name : string;
  callback : Metrics -> Metrics;
  index : Z
}.

End Hook.

Record ServerTiming : Type := {
  oldSpecification : bool;
  initialized : hrtime;
  sendHeaders : bool;
  metrics : Metrics;
  hooks : list Hook.t
}.

(** A value of a header: none, one string, or an array of strings. *)
Inductive HeaderValue : Type :=
| HUndefined
| HString (value : string)
| HArray (values : list string).

(** A listener registered with [onHeaders]: the closure of the middleware,
    which calls [request.serverTiming.addHeaders(response)]. *)
Inductive Listener : Type :=
| CallAddHeaders.

(** The response.  [headersSent] is the flag of a response of Express:
    whether its headers were sent.  [headerSent] is the property of that name
    as a condition, which is what [addHeaders] tests: it is [false] on a
    response that does not define the property, as those of Express and of
    the tests do not, and [true] only when a caller has put a truthy value
    there.  [headers] is the value of [response.headers['server-timing']]. *)
Record Response : Type := {
  headersSent : bool;
  headerSent : bool;
  headers : HeaderValue;
  onHeadersListeners : list Listener
}.

(** The clock: [readings n] is what the [n]-th call of [process.hrtime()]
    returns, [reads] the number of calls made so far. *)
Record Process : Type := {
  readings : nat -> hrtime;
  reads : nat
}.

Record World : Type := {
  process : Process;
  this : ServerTiming;
  response : Response
}.

Definition HEADER_NAME : string := "server-timing".

Inductive Error : Type :=
| INVALID_NAME   (* 'Name contain forbidden symbols' *)
| HEADERS_SENT.  (* 'Headers was already sent and we can not add new headers' *)

(** How a call ends.  [PrototypeWrite]: the call has assigned through the
    inherited accessor [__proto__], which changes the prototype chain of
    objects instead of the metrics; what the program does after that is not
    described here. *)
Inductive Completion (A : Type) : Type :=
| Normal (a : A)
| Throw (e : Error)
| PrototypeWrite.

Arguments Normal {A} a.
Arguments Throw {A} e.
Arguments PrototypeWrite {A}.

(** State and exceptions: the world is kept when a call throws. *)
Definition JS (A : Type) : Type := World -> Completion A * World.

Definition ret {A : Type} (a : A) : JS A := fun w => (Normal a, w).

Definition bind {A B : Type} (m : JS A) (k : A -> JS B) : JS B :=
  fun w =>
    match m w with
    | (Normal a, w') => k a w'
    | (Throw e, w') => (Throw e, w')
    | (PrototypeWrite, w') => (PrototypeWrite, w')
    end.

Definition throw {A : Type} (e : Error) : JS A := fun w => (Throw e, w).

Notation "x <- m ;; k" := (bind m (fun x => k))
  (at level 61, m at next level, right associativity).
Notation "m ;; k" := (bind m (fun _ => k))
  (at level 61, right associativity).

Definition getThis : JS ServerTiming := fun w => (Normal (this w), w).

Definition getResponse : JS Response := fun w => (Normal (response w), w).

Definition setMetrics (ms : Metrics) : JS unit :=
  fun w =>
    (Normal tt,
     {| process := process w;
        this := {| oldSpecification := oldSpecification (this w);
                   initialized := initialized (this w);
                   sendHeaders := sendHeaders (this w);
                   metrics := ms;
                   hooks := hooks (this w) |};
        response := response w |}).

Definition setHooks (hs : list Hook.t) : JS unit :=
  fun w =>
    (Normal tt,
     {| process := process w;
        this := {| oldSpecification := oldSpecification (this w);
                   initialized := initialized (this w);
                   sendHeaders := sendHeaders (this w);
                   metrics := metrics (this w);
                   hooks := hs |};
        response := response w |}).

(** [response.set(HEADER_NAME, values)]: the header [server-timing] of the
    response becomes the array [values]. *)
Definition response_set (values : list string) : JS unit :=
  fun w =>
    (Normal tt,
     {| process := process w;
        this := this w;
        response := {| headersSent := headersSent (response w);
                       headerSent := headerSent (response w);
                       headers := HArray values;
                       onHeadersListeners := onHeadersListeners (response w) |} |}).

(** [process.hrtime()] *)
Definition hrtimeOf (p : Process) : hrtime * Process :=
  (readings p (reads p), {| readings := readings p; reads := S (reads p) |}).

Definition process_hrtime : JS hrtime :=
  fun w =>
    let (t, p) := hrtimeOf (process w) in
    (Normal t, {| process := p; this := this w; response := response w |}).

(** ** Property names *)

(** The properties every object inherits from [Object.prototype]. *)
Definition objectPrototypeKeys : list string :=
  [ "constructor"; "__defineGetter__"; "__defineSetter__"; "hasOwnProperty";
    "__lookupGetter__"; "__lookupSetter__"; "isPrototypeOf";
    "propertyIsEnumerable"; "toString"; "valueOf"; "__proto__";
    "toLocaleString" ].

Definition isInherited (name : string) : bool :=
  existsb (String.eqb name) objectPrototypeKeys.

Fixpoint ownProperty (ms : Metrics) (name : string) : option Metric.t :=
  match ms with
  | [] => None
  | (k, m) :: ms' => if String.eqb k name then Some m else ownProperty ms' name
  end.

(** What [this.metrics[name]] evaluates to. *)
Inductive Lookup : Type :=
| Own (m : Metric.t)   (* a metric *)
| Inherited            (* a member of Object.prototype *)
| Undefined.

Definition lookupProperty (ms : Metrics) (name : string) : Lookup :=
  match ownProperty ms name with
  | Some m => Own m
  | None => if isInherited name then Inherited else Undefined
  end.

(** Assignment to an own property that exists: its place is kept. *)
Fixpoint replaceOwn (ms : Metrics) (name : string) (m : Metric.t) : Metrics :=
  match ms with
  | [] => []
  | (k, m') :: ms' =>
      if String.eqb k name then (k, m) :: ms' else (k, m') :: replaceOwn ms' name m
  end.

(** An array index: a canonical numeric string below 2^32 - 1. *)
Definition arrayIndex (key : string) : option Z :=
  match parseInt key with
  | Int z =>
      if String.eqb (numberToString z) key && (z <? 4294967295) then Some z else None
  | NaN => None
  end.

Definition isArrayIndex (key : string) : bool :=
  match arrayIndex key with Some _ => true | None => false end.

Definition indexOfKey {V : Type} (e : string * V) : Z :=
  match arrayIndex (fst e) with Some i => i | None => 0 end.

(** [Object.entries]: the array indices in ascending order, then the other
    names in the order of their creation. *)
Definition Object_entries {V : Type} (o : list (string * V)) : list (string * V) :=
  Array_sort (fun a b => indexOfKey a - indexOfKey b)
             (filter (fun e => isArrayIndex (fst e)) o)
  ++ filter (fun e => negb (isArrayIndex (fst e))) o.

(** ** The class [ServerTiming] *)

Definition quote : string := String (ascii_of_nat 34) EmptyString.

(** [/ Chrome\/([\d]+)./gi] *)
Definition chromeVersionPattern : RegExp.Pattern :=
  RegExp.Seq (RegExp.literal " Chrome/")
    (RegExp.Seq (RegExp.Group (RegExp.Plus (RegExp.Class isDigit)))
                (RegExp.One RegExp.Dot)).

Definition firstCapture (captures : list string) : string :=
  nth 0 captures EmptyString.

Definition isChromeOf (userAgent : string) : bool :=
  indexOf userAgent " Chrome/" >? -1.

Definition chromeVersionOf (userAgent : string) : option number :=
  match RegExp.exec true chromeVersionPattern userAgent with
  | None => None
  | Some chromeData => Some (parseInt (firstCapture chromeData))
  end.

(** [new ServerTiming(userAgent = '', sendHeaders = true)]; an argument that
    is [undefined] is [None]. *)
Definition constructor (userAgent : option string) (sendHeaders' : option bool)
  (p : Process) : ServerTiming * Process :=
  let userAgent := match userAgent with Some u => u | None => EmptyString end in
  let sendHeaders' := match sendHeaders' with Some b => b | None => true end in
  let isChrome := isChromeOf userAgent in
  let chromeVersion := chromeVersionOf userAgent in
  let isCanary := isChrome && greaterThan chromeVersion 64 in
  let (now, p') := hrtimeOf p in
  ({| oldSpecification := isChrome && negb isCanary;
      initialized := now;
      sendHeaders := sendHeaders';
      metrics := [];
      hooks := [] |}, p').

(** [addHook(name, callback, callbackIndex)] *)
Definition addHook (name : string) (callback : Metrics -> Metrics)
  (callbackIndex : option Z) : JS unit :=
  self <- getThis ;;
  let index :=
    match callbackIndex with
    | Some i => i
    | None => Z.of_nat (length (hooks self)) + 1
    end in
  setHooks (hooks self ++
            [{| Hook.name := name; Hook.callback := callback; Hook.index := index |}]).

(** [removeHook(name)] *)
Definition removeHook (name : string) : JS unit :=
  self <- getThis ;;
  setHooks (filter (fun h => negb (String.eqb (Hook.name h) name)) (hooks self)).

(** [/^[!#$%&'*+\-.^_`|~0-9a-z]+$/gi] *)
Definition tokenClass (c : ascii) : bool :=
  existsb (Ascii.eqb c) (list_ascii_of_string "!#$%&'*+-.^_`|~")
  || RegExp.inRange "0" "9" c
  || RegExp.inRange "a" "z" c.

Definition namePattern : RegExp.Pattern :=
  RegExp.Seq RegExp.Bol
    (RegExp.Seq (RegExp.Plus (RegExp.Class tokenClass)) RegExp.Eol).

Definition nameIsValid (name : string) : bool :=
  RegExp.test true namePattern name.

(** The field and the value given to [set]. *)
Inductive Field : Type :=
| FieldFrom (value : hrtime)
| FieldTo (value : hrtime)
| FieldDescription (value : string)
| FieldDuration (value : Z).

(** [metric[field] = value] *)
Definition assignField (m : Metric.t) (f : Field) : Metric.t :=
  match f with
  | FieldFrom v =>
      {| Metric.from := Some v; Metric.to := Metric.to m;
         Metric.description := Metric.description m;
         Metric.duration := Metric.duration m |}
  | FieldTo v =>
      {| Metric.from := Metric.from m; Metric.to := Some v;
         Metric.description := Metric.description m;
         Metric.duration := Metric.duration m |}
  | FieldDescription v =>
      {| Metric.from := Metric.from m; Metric.to := Metric.to m;
         Metric.description := Some v;
         Metric.duration := Metric.duration m |}
  | FieldDuration v =>
      {| Metric.from := Metric.from m; Metric.to := Metric.to m;
         Metric.description := Metric.description m;
         Metric.duration := Some v |}
  end.

(** [set(name, field, value)].  When [this.metrics[name]] is a member of
    [Object.prototype] its type is not ['undefined'] and the field is written
    on that member: on a built-in function, which nothing reads, or, for
    [__proto__], on [Object.prototype] itself. *)
Definition set (name : string) (f : Field) : JS unit :=
  if negb (nameIsValid name) then throw INVALID_NAME
  else
    self <- getThis ;;
    match lookupProperty (metrics self) name with
    | Undefined => setMetrics (metrics self ++ [(name, assignField Metric.empty f)])
    | Own m => setMetrics (replaceOwn (metrics self) name (assignField m f))
    | Inherited =>
        if String.eqb name "__proto__" then fun w => (PrototypeWrite, w) else ret tt
    end.

(** [description(name, description)] *)
Definition description (name : string) (text : string) : JS unit :=
  set name (FieldDescription text).

(** [duration(name, duration)] *)
Definition duration (name : string) (value : Z) : JS unit :=
  set name (FieldDuration value).

(** [if (description) this.description(name, description)] *)
Definition describeIfGiven (name : string) (text : option string) : JS unit :=
  match text with
  | Some d => if truthyString d then description name d else ret tt
  | None => ret tt
  end.

(** [from(name, description)] *)
Definition from (name : string) (text : option string) : JS unit :=
  now <- process_hrtime ;;
  set name (FieldFrom now) ;;
  describeIfGiven name text.

(** [to(name, description)] *)
Definition to (name : string) (text : option string) : JS unit :=
  now <- process_hrtime ;;
  set name (FieldTo now) ;;
  describeIfGiven name text.

(** [add(name, description, duration = 0.0)].  Assigning to [__proto__] goes
    to the accessor of [Object.prototype], which replaces the prototype of
    [this.metrics] and creates no property, unless an own property of that
    name exists. *)
Definition add (name : string) (text : option string) (value : option Z) : JS unit :=
  let value := match value with Some d => d | None => 0 end in
  if negb (nameIsValid name) then throw INVALID_NAME
  else
    self <- getThis ;;
    let metric :=
      {| Metric.from := None; Metric.to := None;
         Metric.description := text; Metric.duration := Some value |} in
    match ownProperty (metrics self) name with
    | Some _ => setMetrics (replaceOwn (metrics self) name metric)
    | None =>
        if String.eqb name "__proto__" then fun w => (PrototypeWrite, w)
        else setMetrics (metrics self ++ [(name, metric)])
    end.

(** [oldStyle(name, description, duration)] *)
Definition oldStyle (name : string) (text : option string) (value : option Z) : string :=
  (name
   ++ match value with
      | Some d => "=" ++ numberToString d
      | None => EmptyString
      end
   ++ match text with
      | Some d => "; " ++ quote ++ d ++ quote
      | None => EmptyString
      end)%string.

(** [newStyle(name, description, duration)] *)
Definition newStyle (name : string) (text : option string) (value : option Z) : string :=
  (name
   ++ match text with
      | Some d => ";desc=" ++ quote ++ d ++ quote
      | None => EmptyString
      end
   ++ match value with
      | Some d => ";dur=" ++ numberToString d
      | None => EmptyString
      end)%string.

(** [parseInt(x, 10)] on a number that is printed in decimal notation (from
    [1e-6] to [1e21], and 0): its integer part. *)
Definition parseIntOfNumber (x : Q) : Z :=
  if Qle_bool 0 x then Qfloor x else Qceiling x.

(** The literal [1e-6]: the double nearest to a millionth. *)
Definition microsecond : Q := Double.round (1 # 1000000).

(** [t[0] * 1e3 + t[1] * 1e-6] *)
Definition millisecondsOf (t : hrtime) : Q :=
  Double.add (Double.mul (inject_Z (fst t)) 1000)
             (Double.mul (inject_Z (snd t)) microsecond).

(** [parseInt(t[0] * 1e3 + t[1] * 1e-6, 10)] *)
Definition toMilliseconds (t : hrtime) : Z :=
  parseIntOfNumber (millisecondsOf t).

Arguments millisecondsOf : simpl never.
Arguments toMilliseconds : simpl never.

(** Timestamps on which the sum is compared with that of the machine: small
    ones, whole milliseconds, and times around and beyond [2^34] ms, where
    the sum starts to round to the next millisecond. *)
Definition sampleTimestamps : list hrtime :=
  [ (0, 0); (0, 1); (0, 999999); (0, 1000000); (0, 999999999); (1, 0);
    (1, 999999999); (2, 1); (1500, 123456789); (86400, 500000000);
    (1234567, 891011121); (17179869, 183999999); (17179869, 184000000);
    (17179869, 184999999); (17179870, 999999999); (17179871, 0); (17179871, 1);
    (31536000, 999999); (31536000, 999999999); (4294967296, 999999999);
    (1000000000000, 1); (9007199254740, 991999999); (632707, 423938499);
    (635862548432, 881836553); (21879121937, 625763863); (6, 40260662);
    (55, 449008934); (15, 97402358); (6118263334, 887825707);
    (16955280809, 619659571); (27473533460, 237384804); (2, 310965605);
    (38723178, 580557051); (157, 601571670); (844, 624488420);
    (54283720007, 399858816); (16, 605985840); (6, 533021001);
    (31414022895, 628742260); (776492204, 321872363) ].

(** The nanoseconds that make [0 .. n - 1] whole milliseconds are converted
    to these numbers without error. *)
Fixpoint wholeMillisecondsExact (n : nat) : bool :=
  match n with
  | O => true
  | S n' =>
      Qeq_bool (Double.mul (inject_Z (Z.of_nat n' * 1000000)) microsecond)
               (inject_Z (Z.of_nat n'))
      && wholeMillisecondsExact n'
  end.

(** [calculateDuration(from, to)] *)
Definition calculateDuration (from to : hrtime) : Z :=
  let fromTime := toMilliseconds from in
  let toTime := toMilliseconds to in
  Z.abs (toTime - fromTime).

(** [a || b] on a duration that may be [undefined]. *)
Definition orElse (a : option Z) (b : Z) : Z :=
  match a with
  | Some d => if truthyNumber d then d else b
  | None => b
  end.

(** The argument of [buildHeader]. *)
Record HeaderMetric : Type := {
  hm_name : string;
  hm_description : option string;
  hm_duration : option Z;
  hm_from : hrtime;
  hm_to : hrtime
}.

(** [buildHeader({ name, description, duration, from, to }, oldSpecification)] *)
Definition buildHeader (metric : HeaderMetric) (oldSpecification : bool) : string :=
  let time :=
    orElse (hm_duration metric) (calculateDuration (hm_from metric) (hm_to metric)) in
  if oldSpecification
  then oldStyle (hm_name metric) (hm_description metric) (Some time)
  else newStyle (hm_name metric) (hm_description metric) (Some time).

(** [calculateDurationSmart(metric)] *)
Definition calculateDurationSmart (metric : Metric.t) : JS Z :=
  self <- getThis ;;
  let fromLabel :=
    match Metric.from metric with Some t => t | None => initialized self end in
  toLabel <- match Metric.to metric with
             | Some t => ret t
             | None => process_hrtime
             end ;;
  ret (orElse (Metric.duration metric) (calculateDuration fromLabel toLabel)).

(** The body of the [reduce] over [Object.entries(updatedMetrics)]. *)
Definition collect (collector : list string) (element : string * Metric.t)
  : JS (list string) :=
  let (name, m) := element in
  self <- getThis ;;
  let from := match Metric.from m with Some t => t | None => initialized self end in
  to <- match Metric.to m with
        | Some t => ret t
        | None => process_hrtime
        end ;;
  ret (collector ++
       [buildHeader {| hm_name := name;
                       hm_description := Metric.description m;
                       hm_from := from;
                       hm_to := to;
                       hm_duration := Metric.duration m |}
                    (oldSpecification self)]).

Fixpoint reduce {A B : Type} (f : B -> A -> JS B) (l : list A) (init : B) : JS B :=
  match l with
  | [] => ret init
  | x :: l' => acc <- f init x ;; reduce f l' acc
  end.

(** [({ index: indexA }, { index: indexB }) => indexA - indexB] *)
Definition compareIndex (a b : Hook.t) : Z := Hook.index a - Hook.index b.

(** The methods are bound in the constructor, so [this.addHeaders] is a
    function whatever the session holds. *)
Definition hasMethodAddHeaders (self : ServerTiming) : bool := true.

(** [addHeaders(response)] *)
Definition addHeaders : JS unit :=
  self <- getThis ;;
  if negb (hasMethodAddHeaders self) then ret tt
  else
    res <- getResponse ;;
    if headerSent res then throw HEADERS_SENT
    else
      let sorted := Array_sort compareIndex (hooks self) in
      setHooks sorted ;;
      let updatedMetrics :=
        fold_left (fun metrics callback => callback metrics)
                  (map Hook.callback sorted) (metrics self) in
      rendered <- reduce collect (Object_entries updatedMetrics) [] ;;
      let merged :=
        match headers res with
        | HArray existing =>
            if (Z.of_nat (length existing) >? 0) then existing ++ rendered else rendered
        | _ => rendered
        end in
      (if Z.of_nat (length merged) >? 0 then response_set merged else ret tt) ;;
      setMetrics [].

(** ** The middleware *)

(** [onHeaders(response, listener)] *)
Definition onHeaders (res : Response) (listener : Listener) : Response :=
  {| headersSent := headersSent res;
     headerSent := headerSent res;
     headers := headers res;
     onHeadersListeners := onHeadersListeners res ++ [listener] |}.

(** The request: what [request.header('user-agent')] returns. *)
Record Request : Type := { userAgentHeader : option string }.

(** [module.exports = ({ sendHeaders = true } = {}) => serverTimingMiddleware];
    the result is the world in which [next()] is called, with the session
    stored in [request.serverTiming]. *)
Definition serverTimingMiddleware (sendHeadersOption : option bool)
  (request : Request) (res : Response) (p : Process) : World :=
  let sendHeaders' := match sendHeadersOption with Some b => b | None => true end in
  let (session, p') := constructor (userAgentHeader request) (Some sendHeaders') p in
  {| process := p';
     this := session;
     response := if sendHeaders' then onHeaders res CallAddHeaders else res |}.

(** What happens when the response is about to write its headers: every
    listener is called. *)
Definition runListener (l : Listener) : JS unit :=
  match l with CallAddHeaders => addHeaders end.

Definition beforeHeadersAreWritten : JS unit :=
  res <- getResponse ;;
  reduce (fun _ l => runListener l) (onHeadersListeners res) tt.

(** ** Definitions used to state the properties *)

(** The grammar of a metric name as the specification words it: one or more
    characters, each in [!#$%&'*+-.^_`|~0-9A-Za-z]. *)
Definition isTokenChar (c : ascii) : bool :=
  existsb (Ascii.eqb c) (list_ascii_of_string "!#$%&'*+-.^_`|~")
  || RegExp.inRange "0" "9" c
  || RegExp.inRange "A" "Z" c
  || RegExp.inRange "a" "z" c.

Fixpoint allTokenChars (s : string) : bool :=
  match s with
  | EmptyString => true
  | String c s' => isTokenChar c && allTokenChars s'
  end.

Definition isToken (s : string) : bool :=
  match s with
  | EmptyString => false
  | String _ _ => allTokenChars s
  end.

(** A way [a+] matched that reaches the end of the input. *)
Definition atEnd (m : nat * string) : bool :=
  match snd m with EmptyString => true | String _ _ => false end.

Fixpoint allMatch (i : bool) (a : RegExp.Atom) (s : string) : bool :=
  match s with
  | EmptyString => true
  | String c s' => RegExp.atomMatches i a c && allMatch i a s'
  end.

(** A comparison function that subtracts keys, and the order it sorts by. *)
Definition compareByKey {A : Type} (key : A -> Z) (a b : A) : Z := key a - key b.

Definition keyLeq {A : Type} (key : A -> Z) (a b : A) : Prop := key a <= key b.

(** The hooks in the order in which [addHeaders] calls them. *)
Definition sortedHooks (self : ServerTiming) : list Hook.t :=
  Array_sort compareIndex (hooks self).

(** [transformN(...transform1(metrics))] for the hooks [1..N] of a list. *)
Fixpoint transformAll (hs : list Hook.t) (ms : Metrics) : Metrics :=
  match hs with
  | [] => ms
  | h :: hs' => transformAll hs' (Hook.callback h ms)
  end.

Definition updatedMetrics (self : ServerTiming) : Metrics :=
  transformAll (sortedHooks self) (metrics self).

(** The fragment of one entry and of a list of entries, with the clock
    passed along: [reduce collect] without the monad. *)
Definition renderEntry (old : bool) (init : hrtime) (p : Process)
  (e : string * Metric.t) : string * Process :=
  let from := match Metric.from (snd e) with Some t => t | None => init end in
  let (to, p') :=
    match Metric.to (snd e) with
    | Some t => (t, p)
    | None => hrtimeOf p
    end in
  (buildHeader {| hm_name := fst e;
                  hm_description := Metric.description (snd e);
                  hm_from := from;
                  hm_to := to;
                  hm_duration := Metric.duration (snd e) |} old, p').

Fixpoint renderEntries (old : bool) (init : hrtime) (p : Process)
  (l : list (string * Metric.t)) : list string * Process :=
  match l with
  | [] => ([], p)
  | e :: l' =>
      let (x, p1) := renderEntry old init p e in
      let (xs, p2) := renderEntries old init p1 l' in
      (x :: xs, p2)
  end.

(** The fragments a finalization of [w] renders. *)
Definition rendered (w : World) : list string :=
  fst (renderEntries (oldSpecification (this w)) (initialized (this w)) (process w)
         (Object_entries (updatedMetrics (this w)))).

(** The values of the header that are an array on the response. *)
Definition existingValues (h : HeaderValue) : list string :=
  match h with
  | HArray values => values
  | HString _ => []
  | HUndefined => []
  end.

(** The world a finalization ends in when the headers were not sent. *)
Definition finalized (w : World) : World :=
  let r := renderEntries (oldSpecification (this w)) (initialized (this w)) (process w)
             (Object_entries (updatedMetrics (this w))) in
  let merged := existingValues (headers (response w)) ++ fst r in
  {| process := snd r;
     this := {| oldSpecification := oldSpecification (this w);
                initialized := initialized (this w);
                sendHeaders := sendHeaders (this w);
                metrics := [];
                hooks := sortedHooks (this w) |};
     response :=
       match merged with
       | [] => response w
       | _ :: _ => {| headersSent := headersSent (response w);
                      headerSent := headerSent (response w);
                      headers := HArray merged;
                      onHeadersListeners := onHeadersListeners (response w) |}
       end |}.

(** A fragment with a duration, in the format of the session. *)
Definition fragment (old : bool) (name : string) (text : option string) (value : Z)
  : string :=
  if old then oldStyle name text (Some value) else newStyle name text (Some value).

(** The world after a call, and how the call ended. *)
Definition after {A : Type} (m : JS A) (w : World) : World := snd (m w).

Definition completionOf {A : Type} (m : JS A) (w : World) : Completion A := fst (m w).

(** The calls that record something. *)
Inductive RecordingCall : Type :=
| CallFrom (text : option string)
| CallTo (text : option string)
| CallDescription (text : string)
| CallDuration (value : Z)
| CallAdd (text : option string) (value : option Z).

Definition perform (c : RecordingCall) (name : string) : JS unit :=
  match c with
  | CallFrom text => from name text
  | CallTo text => to name text
  | CallDescription text => description name text
  | CallDuration value => duration name value
  | CallAdd text value => add name text value
  end.

(** The session with another value of [sendHeaders]. *)
Definition withSendHeaders (b : bool) (w : World) : World :=
  {| process := process w;
     this := {| oldSpecification := oldSpecification (this w);
                initialized := initialized (this w);
                sendHeaders := b;
                metrics := metrics (this w);
                hooks := hooks (this w) |};
     response := response w |}.

(** The session holding the metrics its hooks produce, and no hook. *)
Definition withHooksApplied (w : World) : World :=
  {| process := process w;
     this := {| oldSpecification := oldSpecification (this w);
                initialized := initialized (this w);
                sendHeaders := sendHeaders (this w);
                metrics := updatedMetrics (this w);
                hooks := [] |};
     response := response w |}.

(** The response with another value of [headers['server-timing']]. *)
Definition withHeader (h : HeaderValue) (w : World) : World :=
  {| process := process w;
     this := this w;
     response := {| headersSent := headersSent (response w);
                    headerSent := headerSent (response w);
                    headers := h;
                    onHeadersListeners := onHeadersListeners (response w) |} |}.

(** The response on which a caller has set the property [headerSent]. *)
Definition withHeaderSentProperty (w : World) : World :=
  {| process := process w;
     this := this w;
     response := {| headersSent := headersSent (response w);
                    headerSent := true;
                    headers := headers (response w);
                    onHeadersListeners := onHeadersListeners (response w) |} |}.

(** The response of Express once its headers are sent: the flag
    [headersSent] is set, and no property [headerSent] appears. *)
Definition withHeadersSent (w : World) : World :=
  {| process := process w;
     this := this w;
     response := {| headersSent := true;
                    headerSent := headerSent (response w);
                    headers := headers (response w);
                    onHeadersListeners := onHeadersListeners (response w) |} |}.

(** Every value a header holds, whatever its shape. *)
Definition valuesOf (h : HeaderValue) : list string :=
  match h with
  | HUndefined => []
  | HString value => [value]
  | HArray values => values
  end.

(** *** Worlds of the examples *)

(** A clock that advances by one second at each reading. *)
Definition secondsClock : Process :=
  {| readings := fun n => (Z.of_nat n, 0); reads := 0 |}.

Definition freshResponse : Response :=
  {| headersSent := false; headerSent := false; headers := HUndefined;
     onHeadersListeners := [] |}.

Definition modernChrome : string :=
  "Mozilla/5.0 (Macintosh; Intel Mac OS X 10_13_6) AppleWebKit/537.36 (KHTML, like Gecko) Chrome/72.0.3809.100 Safari/537.36".

Definition oldChrome : string :=
  "Mozilla/5.0 (Macintosh; Intel Mac OS X 10_13_6) AppleWebKit/537.36 (KHTML, like Gecko) Chrome/62.0.3809.100 Safari/537.36".

(** The world in which a handler runs: the middleware was called with
    [{ sendHeaders: false }], as the tests of the package do. *)
Definition requestWorld (userAgent : string) : World :=
  serverTimingMiddleware (Some false) {| userAgentHeader := Some userAgent |}
    freshResponse secondsClock.

(** *** Statements of the specification that the code does not satisfy *)

(** The duration of a metric with both timestamps is rendered signed. *)
Definition rendersSignedDuration (w : World) (n : string) : Prop :=
  forall (m : Metric.t) (f t : hrtime),
    In (n, m) (updatedMetrics (this w)) ->
    Metric.from m = Some f -> Metric.to m = Some t -> Metric.duration m = None ->
    exists values,
      headers (response (after addHeaders w)) = HArray values /\
      In (fragment (oldSpecification (this w)) n (Metric.description m)
            (toMilliseconds t - toMilliseconds f)) values.

(** A duration that is defined is what is rendered and what
    [calculateDurationSmart] returns. *)
Definition explicitDurationWins (w : World) (name : string) (m : Metric.t) (d : Z)
  (from to : hrtime) : Prop :=
  Metric.duration m = Some d ->
  buildHeader {| hm_name := name; hm_description := Metric.description m;
                 hm_duration := Metric.duration m; hm_from := from; hm_to := to |}
              (oldSpecification (this w))
  = fragment (oldSpecification (this w)) name (Metric.description m) d
  /\ completionOf (calculateDurationSmart m) w = Normal d.

(** The legacy flag: a Chrome token and a parsed version of at most 64;
    not legacy when the version pattern does not match. *)
Definition legacyAsWorded (userAgent : string) : bool :=
  isChromeOf userAgent &&
  match chromeVersionOf userAgent with
  | Some (Int v) => v <=? 64
  | Some NaN => false
  | None => false
  end.

(** The values present on the response are kept, whatever their shape, and
    the new fragments come after them. *)
Definition appendsToExisting (w : World) : Prop :=
  valuesOf (headers (response w)) <> [] ->
  headers (response (after addHeaders w)) =
  HArray (valuesOf (headers (response w)) ++ rendered w).

(** [add(n, d, 123)] and then the finalization give the fragment of [n]. *)
Definition addThenFinalizeRenders (w : World) (n d : string) : Prop :=
  completionOf (add n (Some d) (Some 123)) w = Normal tt /\
  exists values,
    headers (response (after addHeaders (after (add n (Some d) (Some 123)) w)))
    = HArray values /\
    In (fragment (oldSpecification (this w)) n (Some d) 123) values.

(** A finalization after the headers were sent raises the error, writes no
    header and keeps the metrics. *)
Definition raisesWhenHeadersSent (w : World) : Prop :=
  headersSent (response w) = true ->
  completionOf addHeaders w = Throw HEADERS_SENT
  /\ headers (response (after addHeaders w)) = headers (response w)
  /\ metrics (this (after addHeaders w)) = metrics (this w).

(** A session with one metric, on a response where a caller has set the
    property [headerSent]. *)
Definition sentWorld : World :=
  withHeaderSentProperty
    (after (add "db" (Some "query") (Some 5)) (requestWorld modernChrome)).

(** The same session on a response of Express that has sent its headers. *)
Definition expressSentWorld : World :=
  withHeadersSent
    (after (add "db" (Some "query") (Some 5)) (requestWorld modernChrome)).

(** [to('db')] is called before [from('db')]. *)
Definition reversedWorld : World :=
  after (to "db" None ;; from "db" None) (requestWorld modernChrome).

(** The metric of [reversedWorld]: the clock read 1 s for [to], 2 s for [from]. *)
Definition reversedMetric : Metric.t :=
  {| Metric.from := Some (2, 0); Metric.to := Some (1, 0);
     Metric.description := None; Metric.duration := None |}.

(** A metric whose duration is 0 and whose timestamps are one second apart. *)
Definition zeroMetric : Metric.t :=
  {| Metric.from := Some (0, 0); Metric.to := Some (1, 0);
     Metric.description := None; Metric.duration := Some 0 |}.

(** A metric with a duration of 234 and the same timestamps. *)
Definition timedMetric : Metric.t :=
  {| Metric.from := Some (0, 0); Metric.to := Some (1, 0);
     Metric.description := Some "query"; Metric.duration := Some 234 |}.

(** The hook that [addHook] appends. *)
Definition hookOf (name : string) (callback : Metrics -> Metrics) (index : Z) : Hook.t :=
  {| Hook.name := name; Hook.callback := callback; Hook.index := index |}.

(** The index [addHook] gives to a hook that comes without one. *)
Definition defaultIndex (w : World) : Z := Z.of_nat (length (hooks (this w))) + 1.

(** A sequence of calls of [addHook], each with its arguments. *)
Definition HookCall : Type := (string * (Metrics -> Metrics) * option Z)%type.

Fixpoint addHooks (calls : list HookCall) : JS unit :=
  match calls with
  | [] => ret tt
  | (name, callback, callbackIndex) :: calls' =>
      addHook name callback callbackIndex ;; addHooks calls'
  end.

(** A response on which another middleware has set the header to one string,
    and a session with one metric. *)
Definition stringHeaderWorld : World :=
  withHeader (HString "cache;dur=1")
    (after (add "db" (Some "query") (Some 5)) (requestWorld modernChrome)).

(** The same with the header set to an array of two values. *)
Definition arrayHeaderWorld : World :=
  withHeader (HArray ["cache;dur=1"; "auth;dur=2"])
    (after (add "db" (Some "query") (Some 5)) (requestWorld modernChrome)).

(** A hook that removes every metric. *)
Definition clearAll : Metrics -> Metrics := fun _ => [].

(** A hook that returns the metrics it is given. *)
Definition keepAll : Metrics -> Metrics := fun ms => ms.

(** A session with a hook and a metric. *)
Definition hookedWorld : World :=
  after (addHook "keep" keepAll None ;; add "db" (Some "query") (Some 5))
        (requestWorld modernChrome).

(** The metric that [add(name, d, 123)] stores. *)
Definition addedMetric (d : string) : Metric.t :=
  {| Metric.from := None; Metric.to := None;
     Metric.description := Some d; Metric.duration := Some 123 |}.

(** A session created with [sendHeaders = false] that holds one metric. *)
Definition silentWorld : World :=
  after (add "db" (Some "query") (Some 5)) (requestWorld modernChrome).

(** ** Further definitions used to state properties *)

(** The names of the metrics, in the order of their creation. *)
Definition keys (ms : Metrics) : list string := map fst ms.

(** What the recording calls keep true of the metrics: no name twice, and
    every name accepted by [nameIsValid]. *)
Definition wellFormed (ms : Metrics) : Prop :=
  NoDup (keys ms) /\ Forall (fun k => nameIsValid k = true) (keys ms).

(** The characters that the comment of [nameIsValid] lists as not allowed,
    and white space. *)
Definition forbiddenChars : list ascii :=
  list_ascii_of_string "(),/:;<=>?@[\]{}"
  ++ [ascii_of_nat 34; " "%char; "009"%char; "010"%char; "013"%char].

(** The longest prefix of a string made of characters of names. *)
Fixpoint tokenPrefix (s : string) : string :=
  match s with
  | EmptyString => EmptyString
  | String c s' => if isTokenChar c then String c (tokenPrefix s') else EmptyString
  end.

(** [if (description) this.description(name, description)] on one metric. *)
Definition describedBy (text : option string) (m : Metric.t) : Metric.t :=
  match text with
  | Some d => if truthyString d then assignField m (FieldDescription d) else m
  | None => m
  end.

(** The metric of a name, or the empty one when there is none yet. *)
Definition metricOrEmpty (ms : Metrics) (name : string) : Metric.t :=
  match ownProperty ms name with
  | Some m => m
  | None => Metric.empty
  end.

(** The next reading of the clock. *)
Definition nextReading (w : World) : hrtime :=
  readings (process w) (reads (process w)).

(** The time of a reading in nanoseconds, and the readings the clock gives:
    seconds and nanoseconds that are not negative, less than a second of
    nanoseconds. *)
Definition nanoseconds (t : hrtime) : Z := fst t * 1000000000 + snd t.

Definition isReading (t : hrtime) : Prop :=
  0 <= fst t /\ 0 <= snd t < 1000000000.

(** The timestamps a fragment is computed from: [from || this.initialized]
    and [to || now]. *)
Definition startOf (self : ServerTiming) (m : Metric.t) : hrtime :=
  match Metric.from m with Some t => t | None => initialized self end.

Definition endOf (now : hrtime) (m : Metric.t) : hrtime :=
  match Metric.to m with Some t => t | None => now end.

(** The metrics without [to], which end when the headers are written. *)
Definition isOpen (e : string * Metric.t) : bool :=
  match Metric.to (snd e) with Some _ => false | None => true end.

(** The calls of [addHook] that give no index. *)
Definition withoutIndex (call : HookCall) : Prop := snd call = None.

(** A session from which two hooks were removed: its one hook has index 3,
    and the next hook without index gets 2. *)
Definition shrunkWorld : World :=
  after (addHook "a" keepAll None ;; addHook "b" keepAll None ;;
         addHook "c" keepAll None ;; removeHook "a" ;; removeHook "b")
        (requestWorld modernChrome).

(** A session with three metrics, recorded in this order. *)
Definition threeMetricsWorld : World :=
  after (add "db" (Some "query") (Some 5) ;; from "10" None ;; add "9" None (Some 7))
        (requestWorld modernChrome).

(** What a recording call with the name [name] may do to the metrics:
    nothing, give the metric of that name another value, or add a metric of
    that name at the end. *)
Definition touches (name : string) (ms ms' : Metrics) : Prop :=
  ms' = ms
  \/ (exists m, ownProperty ms name <> None /\ ms' = replaceOwn ms name m)
  \/ (exists m, nameIsValid name = true /\ ownProperty ms name = None /\
                ms' = ms ++ [(name, m)]).

(** What a recording call with the name [name] may change in the world: the
    metric of that name and the number of readings taken from the clock. *)
Definition recorded (name : string) (w w' : World) : Prop :=
  touches name (metrics (this w)) (metrics (this w'))
  /\ hooks (this w') = hooks (this w)
  /\ oldSpecification (this w') = oldSpecification (this w)
  /\ initialized (this w') = initialized (this w)
  /\ sendHeaders (this w') = sendHeaders (this w)
  /\ response w' = response w
  /\ readings (process w') = readings (process w)
  /\ (reads (process w) <= reads (process w') <= reads (process w) + 1)%nat.

(** The metric that [from(name, text)] leaves under [name]. *)
Definition startedMetric (w : World) (name : string) (text : option string) : Metric.t :=
  describedBy text
    (assignField (metricOrEmpty (metrics (this w)) name) (FieldFrom (nextReading w))).

(** The metric that [to(name, text)] leaves under [name]. *)
Definition endedMetric (w : World) (name : string) (text : option string) : Metric.t :=
  describedBy text
    (assignField (metricOrEmpty (metrics (this w)) name) (FieldTo (nextReading w))).

(** The fragment of the entry [e] in a finalization of [w] in which the
    entries [before] are rendered before it: each of those without [to] has
    taken one reading of the clock, and [e] ends at the next one when it has
    no [to] itself. *)
Definition fragmentAfter (w : World) (before : list (string * Metric.t))
  (e : string * Metric.t) : string :=
  buildHeader
    {| hm_name := fst e;
       hm_description := Metric.description (snd e);
       hm_duration := Metric.duration (snd e);
       hm_from := startOf (this w) (snd e);
       hm_to := endOf (readings (process w)
                         (reads (process w) + length (filter isOpen before)))
                      (snd e) |}
    (oldSpecification (this w)).

(** The clock after [n] more readings. *)
Definition advance (p : Process) (n : nat) : Process :=
  {| readings := readings p; reads := reads p + n |}.

(** The metrics of [threeMetricsWorld] named [9], [10] and [db]. *)
Definition metricNine : Metric.t :=
  {| Metric.from := None; Metric.to := None;
     Metric.description := None; Metric.duration := Some 7 |}.

Definition metricTen : Metric.t :=
  {| Metric.from := Some (1, 0); Metric.to := None;
     Metric.description := None; Metric.duration := None |}.

Definition metricDb : Metric.t :=
  {| Metric.from := None; Metric.to := None;
     Metric.description := Some "query"; Metric.duration := Some 5 |}.

(** What the calls of [addHook] without index keep true of the hooks: they
    are in the order of their indices, and no index is above their number. *)
Definition inDefaultOrder (hs : list Hook.t) : Prop :=
  StronglySorted (keyLeq Hook.index) hs
  /\ Forall (fun h => Hook.index h <= Z.of_nat (length hs)) hs.

(** Two calls of [addHook] without index. *)
Definition twoDefaultHooks : list HookCall :=
  [("a", keepAll, None); ("b", clearAll, None)].

(** Strings of digits. *)
Fixpoint allDigits (s : string) : bool :=
  match s with
  | EmptyString => true
  | String c s' => isDigit c && allDigits s'
  end.

(** No space of the string is followed by [c] or [C]: no word starts with
    that letter. *)
Fixpoint noWordStartsWithC (s : string) : bool :=
  match s with
  | String a s' =>
      match s' with
      | String b _ =>
          negb (Ascii.eqb a " " && (Ascii.eqb b "c" || Ascii.eqb b "C"))
      | EmptyString => true
      end && noWordStartsWithC s'
  | EmptyString => true
  end.

(** What may follow the digits of the version for all of them to be read: a
    character that is neither a digit nor a line terminator. *)
Definition endsVersion (tail : string) : bool :=
  match tail with
  | String c _ => negb (isDigit c) && negb (RegExp.isLineTerminator c)
  | EmptyString => false
  end.

(** The end of the user agent, or a line terminator. *)
Definition endsLine (tail : string) : bool :=
  match tail with
  | String c _ => RegExp.isLineTerminator c
  | EmptyString => true
  end.

(** A user agent up to its Chrome token, as a desktop Chrome sends it. *)
Definition chromePrefix : string :=
  "Mozilla/5.0 (X11; Linux x86_64) AppleWebKit/537.36 (KHTML, like Gecko)".

(** * Properties *)

(** ** Metric names *)

Lemma tokenClass_ignoreCase (c : ascii) :
  RegExp.atomMatches true (RegExp.Class tokenClass) c = isTokenChar c.
Proof.
  destruct c as [[] [] [] [] [] [] [] []]; vm_compute; reflexivity.
Qed.

Lemma existsb_atEnd_shift (l : list (nat * string)) :
  existsb atEnd (map (fun '(n, r) => (S n, r)) l) = existsb atEnd l.
Proof.
  induction l as [|[n r] l IH]; simpl; [reflexivity|].
  now rewrite IH.
Qed.

Lemma plusMatches_atEnd (i : bool) (a : RegExp.Atom) (s : string) :
  existsb atEnd (RegExp.plusMatches i a s) =
  match s with EmptyString => false | String _ _ => allMatch i a s end.
Proof.
  induction s as [|c s IH]; simpl; [reflexivity|].
  destruct (RegExp.atomMatches i a c); simpl; [|reflexivity].
  rewrite existsb_app, existsb_atEnd_shift, IH. simpl.
  unfold atEnd; simpl. destruct s; simpl; [reflexivity|].
  now rewrite orb_false_r.
Qed.

(** [^a+$] at the start of the input. *)
Lemma anchoredPlus_matchHere (i : bool) (a : RegExp.Atom) (s : string) :
  match RegExp.matchHere i
          (RegExp.Seq RegExp.Bol (RegExp.Seq (RegExp.Plus a) RegExp.Eol))
          {| RegExp.rest := s; RegExp.index := 0; RegExp.captures := [] |} with
  | [] => false
  | _ :: _ => true
  end = existsb atEnd (RegExp.plusMatches i a s).
Proof.
  simpl. rewrite app_nil_r.
  induction (RegExp.plusMatches i a s) as [|[n r] l IH]; simpl; [reflexivity|].
  unfold atEnd at 1; simpl. destruct r; simpl; [reflexivity|]. exact IH.
Qed.

Lemma anchored_execFrom_later (i : bool) (p : RegExp.Pattern) (s : string) (k : nat) :
  RegExp.execFrom i (RegExp.Seq RegExp.Bol p) (S k) s = None.
Proof.
  revert k. induction s as [|c s IH]; intros k; simpl; [reflexivity|]. apply IH.
Qed.

Lemma nameIsValid_isToken (name : string) : nameIsValid name = isToken name.
Proof.
  unfold nameIsValid, RegExp.test, RegExp.exec, namePattern.
  pose proof (anchoredPlus_matchHere true (RegExp.Class tokenClass) name) as H.
  rewrite plusMatches_atEnd in H.
  assert (Hall : forall s, allMatch true (RegExp.Class tokenClass) s = allTokenChars s).
  { induction s as [|c s IHs]; [reflexivity|].
    cbn [allMatch allTokenChars]. now rewrite tokenClass_ignoreCase, IHs. }
  destruct name as [|c name].
  - reflexivity.
  - rewrite Hall in H. unfold isToken. rewrite <- H.
    unfold RegExp.execFrom; fold RegExp.execFrom.
    destruct (RegExp.matchHere _ _ _); [|reflexivity].
    now rewrite anchored_execFrom_later.
Qed.

(** ** [Array.prototype.sort] with a comparison of keys *)

Section SortByKey.

Context {A : Type} (key : A -> Z).

Local Abbreviation compareKey := (compareByKey key).
Local Abbreviation keyLe := (keyLeq key).

Lemma insertSorted_Permutation (x : A) (l : list A) :
  Permutation (insertSorted compareKey x l) (x :: l).
Proof.
  induction l as [|y l IH]; simpl; [reflexivity|].
  destruct (compareKey x y <=? 0); [reflexivity|].
  rewrite IH. apply perm_swap.
Qed.

Lemma Array_sort_Permutation (l : list A) :
  Permutation (Array_sort compareKey l) l.
Proof.
  induction l as [|x l IH]; simpl; [reflexivity|].
  rewrite insertSorted_Permutation. now constructor.
Qed.

Lemma insertSorted_StronglySorted (x : A) (l : list A) :
  StronglySorted keyLe l -> StronglySorted keyLe (insertSorted compareKey x l).
Proof.
  induction 1 as [|y l Hs IH Hall]; simpl.
  - repeat constructor.
  - destruct (compareKey x y <=? 0) eqn:E; unfold compareByKey in E.
    + apply Z.leb_le in E. constructor; [now constructor|].
      constructor; [unfold keyLeq; lia|].
      eapply Forall_impl; [|exact Hall]. unfold keyLeq. intros; lia.
    + apply Z.leb_gt in E. constructor; [exact IH|].
      rewrite (insertSorted_Permutation x l).
      constructor; [unfold keyLeq; lia | exact Hall].
Qed.

Lemma Array_sort_StronglySorted (l : list A) :
  StronglySorted keyLe (Array_sort compareKey l).
Proof.
  induction l as [|x l IH]; simpl; [constructor|].
  now apply insertSorted_StronglySorted.
Qed.

(** Stability: the elements of one key keep their order. *)
Lemma insertSorted_filter (k : Z) (x : A) (l : list A) :
  StronglySorted keyLe l ->
  filter (fun a => key a =? k) (insertSorted compareKey x l) =
  filter (fun a => key a =? k) (x :: l).
Proof.
  induction 1 as [|y l Hs IH Hall]; [reflexivity|].
  cbn [insertSorted].
  destruct (compareKey x y <=? 0) eqn:E; [reflexivity|].
  unfold compareByKey in E. apply Z.leb_gt in E.
  cbn [filter] in *. rewrite IH.
  destruct (key x =? k) eqn:Ex; [|reflexivity].
  destruct (key y =? k) eqn:Ey; [|reflexivity].
  apply Z.eqb_eq in Ex, Ey. lia.
Qed.

Lemma Array_sort_stable (k : Z) (l : list A) :
  filter (fun a => key a =? k) (Array_sort compareKey l) =
  filter (fun a => key a =? k) l.
Proof.
  induction l as [|x l IH]; [reflexivity|].
  cbn [Array_sort]. rewrite insertSorted_filter by apply Array_sort_StronglySorted.
  cbn [filter]. now rewrite IH.
Qed.

(** An element with a smaller key stands before one with a larger key. *)
Lemma Array_sort_smaller_first (l : list A) (a b : A) :
  In a l -> In b l -> key a < key b ->
  exists l1 l2 l3, Array_sort compareKey l = l1 ++ a :: l2 ++ b :: l3.
Proof.
  intros Ha Hb Hlt.
  pose proof (Array_sort_StronglySorted l) as Hs.
  pose proof (Array_sort_Permutation l) as Hp.
  apply (Permutation_in _ (Permutation_sym Hp)) in Ha.
  apply (Permutation_in _ (Permutation_sym Hp)) in Hb.
  destruct (in_split _ _ Hb) as (u & v & Huv).
  rewrite Huv in *. clear Hb Hp.
  apply in_app_or in Ha. destruct Ha as [Ha | [Ha | Ha]].
  - destruct (in_split _ _ Ha) as (l1 & l2 & ->).
    exists l1, l2, v. now rewrite <- app_assoc.
  - subst. lia.
  - exfalso. clear Huv. induction u as [|c u IH]; simpl in Hs.
    + inversion Hs as [|? ? _ Hall]; subst.
      rewrite Forall_forall in Hall. specialize (Hall _ Ha). unfold keyLeq in Hall. lia.
    + inversion Hs; subst. now apply IH.
Qed.

(** Sorting a sorted array changes nothing. *)
Lemma Array_sort_sorted_id (l : list A) :
  StronglySorted keyLe l -> Array_sort compareKey l = l.
Proof.
  induction 1 as [|x l Hs IH Hall]; [reflexivity|].
  cbn [Array_sort]. rewrite IH.
  destruct l as [|y l]; [reflexivity|]. cbn [insertSorted].
  inversion Hall as [|? ? Hxy _]; subst. unfold keyLeq in Hxy. unfold compareByKey.
  destruct (key x - key y <=? 0) eqn:E; [reflexivity|]. apply Z.leb_gt in E. lia.
Qed.

End SortByKey.

Lemma compareIndex_compareByKey : compareIndex = compareByKey Hook.index.
Proof. reflexivity. Qed.

(** ** [Object.entries] *)

Lemma filter_split_Permutation {A : Type} (f : A -> bool) (l : list A) :
  Permutation (filter f l ++ filter (fun x => negb (f x)) l) l.
Proof.
  induction l as [|x l IH]; simpl; [reflexivity|].
  destruct (f x); simpl.
  - now constructor.
  - rewrite <- Permutation_middle. now constructor.
Qed.

Lemma Object_entries_Permutation {V : Type} (o : list (string * V)) :
  Permutation (Object_entries o) o.
Proof.
  unfold Object_entries.
  rewrite (Array_sort_Permutation indexOfKey).
  apply filter_split_Permutation.
Qed.

Lemma Object_entries_In {V : Type} (o : list (string * V)) (e : string * V) :
  In e (Object_entries o) <-> In e o.
Proof.
  split; apply Permutation_in;
    [|apply Permutation_sym]; apply Object_entries_Permutation.
Qed.

Lemma Object_entries_nil {V : Type} : Object_entries (@nil (string * V)) = [].
Proof. reflexivity. Qed.

(** ** Finalization without the monad *)

Lemma transformAll_fold (hs : list Hook.t) (ms : Metrics) :
  fold_left (fun metrics callback => callback metrics) (map Hook.callback hs) ms =
  transformAll hs ms.
Proof.
  revert ms. induction hs as [|h hs IH]; intros ms; simpl; [reflexivity|]. apply IH.
Qed.

Lemma reduce_collect (l : list (string * Metric.t)) (acc : list string) (w : World) :
  reduce collect l acc w =
  (Normal (acc ++ fst (renderEntries (oldSpecification (this w)) (initialized (this w))
                         (process w) l)),
   {| process := snd (renderEntries (oldSpecification (this w)) (initialized (this w))
                        (process w) l);
      this := this w;
      response := response w |}).
Proof.
  revert acc w. induction l as [|[n m] l IH]; intros acc w.
  - simpl. rewrite app_nil_r. now destruct w.
  - cbn [reduce]. unfold bind at 1. unfold collect.
    unfold bind, getThis, ret, process_hrtime, renderEntries; fold renderEntries.
    unfold renderEntry. cbn [fst snd].
    destruct (Metric.to m) as [t|].
    + rewrite IH. cbn [this process response].
      destruct (renderEntries _ _ (process w) l) as [xs p2]. cbn [fst snd].
      now rewrite <- app_assoc.
    + destruct (hrtimeOf (process w)) as [t p1] eqn:Ep.
      rewrite IH. cbn [this process response].
      destruct (renderEntries _ _ p1 l) as [xs p2]. cbn [fst snd].
      now rewrite <- app_assoc.
Qed.

Lemma addHeaders_sent (w : World) :
  headerSent (response w) = true -> addHeaders w = (Throw HEADERS_SENT, w).
Proof.
  intros H. unfold addHeaders, bind, getThis, getResponse, hasMethodAddHeaders.
  cbn [negb]. now rewrite H.
Qed.

Lemma addHeaders_not_sent (w : World) :
  headerSent (response w) = false -> addHeaders w = (Normal tt, finalized w).
Proof.
  intros H. unfold addHeaders, bind, getThis, getResponse, hasMethodAddHeaders.
  cbn [negb]. rewrite H. unfold setHooks at 1. cbn [this process response].
  rewrite transformAll_fold, reduce_collect.
  cbn [this process response oldSpecification initialized fst snd app].
  unfold finalized, updatedMetrics, sortedHooks.
  set (r := renderEntries _ _ _ _).
  assert (Hm : (match headers (response w) with
                | HArray existing =>
                    if Z.of_nat (length existing) >? 0 then existing ++ fst r else fst r
                | _ => fst r
                end) = existingValues (headers (response w)) ++ fst r).
  { destruct (headers (response w)) as [| |[|x xs]]; reflexivity. }
  rewrite Hm.
  destruct (existingValues (headers (response w)) ++ fst r) as [|v vs] eqn:E.
  - reflexivity.
  - cbn [length]. rewrite Nat2Z.inj_succ.
    replace (Z.succ (Z.of_nat (length vs)) >? 0) with true
      by (symmetry; apply Z.gtb_lt; lia).
    reflexivity.
Qed.

(** ** The recording calls and the names they accept *)

Lemma set_invalid (name : string) (f : Field) (w : World) :
  nameIsValid name = false -> set name f w = (Throw INVALID_NAME, w).
Proof.
  intros H. unfold set. now rewrite H.
Qed.

Lemma set_valid (name : string) (f : Field) (w : World) :
  nameIsValid name = true ->
  completionOf (set name f) w = Normal tt \/ completionOf (set name f) w = PrototypeWrite.
Proof.
  intros H. unfold completionOf, set. rewrite H. cbn [negb].
  unfold bind, getThis.
  destruct (lookupProperty (metrics (this w)) name).
  - now left.
  - destruct (String.eqb name "__proto__"); [now right | now left].
  - now left.
Qed.

Lemma describeIfGiven_valid (name : string) (text : option string) (w : World) :
  nameIsValid name = true ->
  completionOf (describeIfGiven name text) w <> Throw INVALID_NAME.
Proof.
  intros H. unfold describeIfGiven.
  destruct text as [d|]; [destruct (truthyString d)|]; try discriminate.
  unfold description. destruct (set_valid name (FieldDescription d) w H) as [E|E];
    rewrite E; discriminate.
Qed.

Lemma timestamped_set_invalid (name : string) (field : hrtime -> Field)
    (text : option string) (w : World) :
  nameIsValid name = false ->
  completionOf (now <- process_hrtime ;; set name (field now) ;;
                describeIfGiven name text) w = Throw INVALID_NAME
  /\ this (after (now <- process_hrtime ;; set name (field now) ;;
                  describeIfGiven name text) w) = this w
  /\ response (after (now <- process_hrtime ;; set name (field now) ;;
                      describeIfGiven name text) w) = response w.
Proof.
  intros H. unfold completionOf, after, bind, process_hrtime.
  destruct (hrtimeOf (process w)) as [t p]. rewrite set_invalid by exact H.
  now repeat split.
Qed.

Lemma timestamped_set_valid (name : string) (field : hrtime -> Field)
    (text : option string) (w : World) :
  nameIsValid name = true ->
  completionOf (now <- process_hrtime ;; set name (field now) ;;
                describeIfGiven name text) w <> Throw INVALID_NAME.
Proof.
  intros H. unfold completionOf, bind, process_hrtime.
  destruct (hrtimeOf (process w)) as [t p].
  match goal with |- context [set name ?f ?w'] =>
    pose proof (set_valid name f w' H) as Hs;
    unfold completionOf in Hs; destruct (set name f w') as [c w2] end.
  cbn [fst] in Hs. destruct Hs as [-> | ->]; [|discriminate].
  apply describeIfGiven_valid, H.
Qed.

Lemma add_invalid (name : string) (text : option string) (value : option Z) (w : World) :
  nameIsValid name = false -> add name text value w = (Throw INVALID_NAME, w).
Proof.
  intros H. unfold add. now rewrite H.
Qed.

Lemma add_valid (name : string) (text : option string) (value : option Z) (w : World) :
  nameIsValid name = true ->
  completionOf (add name text value) w <> Throw INVALID_NAME.
Proof.
  intros H. unfold completionOf, add. rewrite H. cbn [negb].
  unfold bind, getThis.
  destruct (ownProperty (metrics (this w)) name); [discriminate|].
  destruct (String.eqb name "__proto__"); discriminate.
Qed.

(** C5. Each of [from], [to], [description], [duration] and [add] throws the
    error [INVALID_NAME] exactly when the name is not a token (one or more
    characters of [!#$%&'*+-.^_`|~0-9A-Za-z]); when it throws, the session
    (its metrics included) and the response are what they were. *)
Theorem invalid_name_iff_not_token :
  forall (c : RecordingCall) (name : string) (w : World),
    (completionOf (perform c name) w = Throw INVALID_NAME <-> isToken name = false)
    /\ (isToken name = false ->
        this (after (perform c name) w) = this w
        /\ metrics (this (after (perform c name) w)) = metrics (this w)
        /\ response (after (perform c name) w) = response w).
Proof.
  intros c name w. rewrite <- nameIsValid_isToken.
  assert (Hinv : nameIsValid name = false ->
                 completionOf (perform c name) w = Throw INVALID_NAME
                 /\ this (after (perform c name) w) = this w
                 /\ response (after (perform c name) w) = response w).
  { intros H. destruct c as [text|text|text|value|text value]; cbn [perform].
    - apply (timestamped_set_invalid name FieldFrom text w H).
    - apply (timestamped_set_invalid name FieldTo text w H).
    - unfold description, completionOf, after. now rewrite set_invalid.
    - unfold duration, completionOf, after. now rewrite set_invalid.
    - unfold completionOf, after. now rewrite add_invalid. }
  assert (Hval : nameIsValid name = true ->
                 completionOf (perform c name) w <> Throw INVALID_NAME).
  { intros H. destruct c as [text|text|text|value|text value]; cbn [perform].
    - apply (timestamped_set_valid name FieldFrom text w H).
    - apply (timestamped_set_valid name FieldTo text w H).
    - unfold description.
      destruct (set_valid name (FieldDescription text) w H) as [E|E];
        rewrite E; discriminate.
    - unfold duration.
      destruct (set_valid name (FieldDuration value) w H) as [E|E];
        rewrite E; discriminate.
    - apply add_valid, H. }
  split.
  - split.
    + intros E. destruct (nameIsValid name) eqn:V; [|reflexivity].
      now destruct (Hval eq_refl).
    + intros V. now apply Hinv.
  - intros V. destruct (Hinv V) as (_ & Ht & Hr). rewrite Ht. now repeat split.
Qed.

(** ** Finalization when the headers are already sent *)

(** X22. When the property [response.headerSent] is truthy, [addHeaders]
    throws the error [HEADERS_SENT] and changes nothing: the header of the
    response and the metrics of the session are what they were. *)
Theorem finalize_after_headers_sent :
  forall (w : World),
    headerSent (response w) = true ->
    completionOf addHeaders w = Throw HEADERS_SENT
    /\ headers (response (after addHeaders w)) = headers (response w)
    /\ metrics (this (after addHeaders w)) = metrics (this w)
    /\ after addHeaders w = w.
Proof.
  intros w H. unfold completionOf, after. rewrite (addHeaders_sent w H).
  now repeat split.
Qed.

Lemma finalize_after_headers_sent_witness :
  headerSent (response sentWorld) = true
  /\ completionOf addHeaders sentWorld = Throw HEADERS_SENT
  /\ headers (response (after addHeaders sentWorld)) = headers (response sentWorld)
  /\ metrics (this (after addHeaders sentWorld)) = metrics (this sentWorld)
  /\ after addHeaders sentWorld = sentWorld.
Proof.
  split; [reflexivity | apply finalize_after_headers_sent; reflexivity].
Defined.

(** ** Durations *)

Section DoubleRounding.

Local Open Scope Q_scope.

Lemma nearestEven_error (q : Q) :
  Qabs (inject_Z (Double.nearestEven q) - q) <= 1 # 2.
Proof.
  unfold Double.nearestEven.
  pose proof (Qfloor_le q) as H1. pose proof (Qlt_floor q) as H2.
  rewrite inject_Z_plus in H2. change (inject_Z 1) with 1 in H2.
  apply Qabs_Qle_condition.
  destruct (Qcompare_spec (q - inject_Z (Qfloor q)) (1 # 2)) as [E | E | E].
  - destruct (Z.even (Qfloor q)); [|rewrite inject_Z_plus; change (inject_Z 1) with 1];
      lra.
  - lra.
  - rewrite inject_Z_plus. change (inject_Z 1) with 1. lra.
Qed.

Lemma nearestEven_comp (q q' : Q) :
  q == q' -> Double.nearestEven q = Double.nearestEven q'.
Proof.
  intros E. unfold Double.nearestEven. rewrite (Qfloor_comp _ _ E).
  now rewrite E.
Qed.

Lemma nearestEven_Z (z : Z) : Double.nearestEven (inject_Z z) = z.
Proof.
  unfold Double.nearestEven. rewrite Qfloor_Z.
  destruct (Qcompare_spec (inject_Z z - inject_Z z) (1 # 2)) as [E | E | E];
    [exfalso; lra | reflexivity | exfalso; lra].
Qed.

Lemma pow2_pos (e : Z) : 0 < 2 ^ e.
Proof. apply Qpower_0_lt. reflexivity. Qed.

Lemma pow2_le (e e' : Z) : (e <= e')%Z -> 2 ^ e <= 2 ^ e'.
Proof. intros H. apply Qpower_le_compat_l; [exact H | discriminate]. Qed.

(** The distance between a number and the double nearest to it is at most
    half the weight of the last bit. *)
Lemma round_error (x : Q) :
  Qabs (Double.round x - x) <= 2 ^ Double.exponent x * (1 # 2).
Proof.
  unfold Double.round. pose proof (pow2_pos (Double.exponent x)) as Hp.
  destruct (Qeq_bool x 0) eqn:E.
  - apply Qeq_bool_iff in E. apply Qabs_Qle_condition. lra.
  - rewrite Qred_correct.
    set (p := 2 ^ Double.exponent x) in *.
    pose proof (nearestEven_error (x / p)) as H.
    apply Qabs_Qle_condition in H. apply Qabs_Qle_condition.
    set (k := inject_Z (Double.nearestEven (x / p))) in *.
    assert (Ex : x == x / p * p) by (field; lra).
    split.
    + assert (H' : (- (1 # 2)) * p <= (k - x / p) * p)
        by (apply Qmult_le_compat_r; lra).
      lra.
    + assert (H' : (k - x / p) * p <= (1 # 2) * p)
        by (apply Qmult_le_compat_r; lra).
      lra.
Qed.

Lemma ilog2_below (x : Q) (k : Z) :
  (0 < k)%Z -> 0 < x -> x < inject_Z (2 ^ k) -> (Double.ilog2 x < k)%Z.
Proof.
  intros Hk Hx Hlt. unfold Double.ilog2.
  destruct (Qle_bool 1 x) eqn:E.
  - apply Qle_bool_iff in E.
    assert (H1 : (1 <= Qfloor x)%Z).
    { change 1%Z with (Qfloor (inject_Z 1)). now apply Qfloor_resp_le. }
    apply Z.log2_lt_pow2; [lia|].
    rewrite Zlt_Qlt. pose proof (Qfloor_le x). lra.
  - pose proof (Z.log2_up_nonneg (Qceiling (/ x))). lia.
Qed.

Lemma exponent_below (x : Q) (k : Z) :
  (0 < k)%Z -> (-1074 <= k - 53)%Z -> ~ x == 0 -> Qabs x < inject_Z (2 ^ k) ->
  (Double.exponent x <= k - 53)%Z.
Proof.
  intros Hk Hm Hx Hlt. unfold Double.exponent.
  assert (H0 : 0 < Qabs x).
  { pose proof (Qabs_nonneg x) as Hn. apply Qle_lteq in Hn.
    destruct Hn as [Hn | Hn]; [exact Hn|].
    exfalso. apply Hx. symmetry in Hn.
    revert Hn. apply Qabs_case; intros; lra. }
  pose proof (ilog2_below _ _ Hk H0 Hlt). lia.
Qed.

(** An integer below [2^53] is a double. *)
Lemma round_integer (z : Z) :
  (Z.abs z < 2 ^ 53)%Z -> Double.round (inject_Z z) == inject_Z z.
Proof.
  intros Hz. unfold Double.round.
  destruct (Qeq_bool (inject_Z z) 0) eqn:E.
  - apply Qeq_bool_iff in E. symmetry. exact E.
  - apply Qeq_bool_neq in E. rewrite Qred_correct.
    assert (He : (Double.exponent (inject_Z z) <= 0)%Z).
    { apply (exponent_below _ 53); [lia | lia | exact E|].
      change (Qabs (inject_Z z)) with (inject_Z (Z.abs z)).
      now rewrite <- Zlt_Qlt. }
    set (e := Double.exponent (inject_Z z)) in *.
    assert (Ee : 2 ^ e == / inject_Z (2 ^ (- e))).
    { rewrite Zpower_Qpower by lia. rewrite <- Qpower_opp.
      now rewrite Z.opp_involutive. }
    assert (Hpos : 0 < inject_Z (2 ^ (- e))).
    { change 0 with (inject_Z 0). rewrite <- Zlt_Qlt. apply Z.pow_pos_nonneg; lia. }
    assert (Ex : inject_Z z / 2 ^ e == inject_Z (z * 2 ^ (- e))).
    { rewrite inject_Z_mult, Ee. field. lra. }
    rewrite (nearestEven_comp _ _ Ex), nearestEven_Z.
    rewrite inject_Z_mult, Ee. field. lra.
Qed.

Lemma ilog2_comp (x y : Q) : x == y -> Double.ilog2 x = Double.ilog2 y.
Proof.
  intros E. unfold Double.ilog2.
  assert (E1 : Qle_bool 1 x = Qle_bool 1 y).
  { destruct (Qle_bool 1 x) eqn:Hx, (Qle_bool 1 y) eqn:Hy; try reflexivity.
    - apply Qle_bool_iff in Hx. rewrite E in Hx. apply Qle_bool_iff in Hx. congruence.
    - apply Qle_bool_iff in Hy. rewrite <- E in Hy. apply Qle_bool_iff in Hy.
      congruence. }
  rewrite E1, (Qfloor_comp _ _ E).
  assert (E2 : / x == / y) by now rewrite E.
  now rewrite (Qceiling_comp _ _ E2).
Qed.

Lemma exponent_comp (x y : Q) : x == y -> Double.exponent x = Double.exponent y.
Proof.
  intros E. unfold Double.exponent.
  assert (E1 : Qabs x == Qabs y) by now rewrite E.
  now rewrite (ilog2_comp _ _ E1).
Qed.

Lemma round_comp (x y : Q) : x == y -> Double.round x = Double.round y.
Proof.
  intros E. unfold Double.round.
  assert (E1 : Qeq_bool x 0 = Qeq_bool y 0).
  { destruct (Qeq_bool x 0) eqn:Hx, (Qeq_bool y 0) eqn:Hy; try reflexivity.
    - apply Qeq_bool_iff in Hx. apply Qeq_bool_neq in Hy. exfalso. apply Hy.
      now rewrite <- E.
    - apply Qeq_bool_iff in Hy. apply Qeq_bool_neq in Hx. exfalso. apply Hx.
      now rewrite E. }
  rewrite E1, (exponent_comp _ _ E).
  destruct (Qeq_bool y 0); [reflexivity|].
  apply Qred_complete.
  assert (E2 : x / 2 ^ Double.exponent y == y / 2 ^ Double.exponent y)
    by now rewrite E.
  now rewrite (nearestEven_comp _ _ E2).
Qed.

(** The rounding error of a number below [2^k]. *)
Lemma round_error_below (x : Q) (k : Z) :
  (0 < k)%Z -> (-1074 <= k - 53)%Z -> Qabs x < inject_Z (2 ^ k) ->
  Qabs (Double.round x - x) <= 2 ^ (k - 53) * (1 # 2).
Proof.
  intros Hk Hm Hlt.
  destruct (Qeq_bool x 0) eqn:E.
  - unfold Double.round. rewrite E. apply Qeq_bool_iff in E.
    pose proof (pow2_pos (k - 53)). apply Qabs_Qle_condition. lra.
  - apply Qeq_bool_neq in E.
    pose proof (round_error x) as H.
    pose proof (pow2_le _ _ (exponent_below x k Hk Hm E Hlt)) as Hp.
    lra.
Qed.

Lemma microsecond_value :
  microsecond = 4722366482869645 # 4722366482869645213696.
Proof. vm_compute. reflexivity. Qed.

Lemma wholeMillisecondsExact_spec (n : nat) (k : Z) :
  wholeMillisecondsExact n = true -> (0 <= k < Z.of_nat n)%Z ->
  Double.mul (inject_Z (k * 1000000)) microsecond == inject_Z k.
Proof.
  induction n as [|n IH]; intros H Hk; [lia|].
  cbn [wholeMillisecondsExact] in H. apply andb_true_iff in H. destruct H as (H1 & H2).
  destruct (Z.eq_dec k (Z.of_nat n)) as [-> | Hne].
  - now apply Qeq_bool_iff.
  - apply IH; [exact H2 | lia].
Qed.

Lemma whole_milliseconds (k : Z) :
  (0 <= k < 1000)%Z ->
  Double.mul (inject_Z (k * 1000000)) microsecond == inject_Z k.
Proof.
  apply (wholeMillisecondsExact_spec 1000). vm_compute. reflexivity.
Qed.

Lemma Qfloor_unique (x : Q) (n : Z) :
  inject_Z n <= x -> x < inject_Z n + 1 -> Qfloor x = n.
Proof.
  intros H1 H2.
  assert (Ha : (n <= Qfloor x)%Z).
  { rewrite <- (Qfloor_Z n). now apply Qfloor_resp_le. }
  assert (Hb : (Qfloor x < n + 1)%Z).
  { rewrite Zlt_Qlt, inject_Z_plus. change (inject_Z 1) with 1.
    pose proof (Qfloor_le x). lra. }
  lia.
Qed.

(** Below [2^34] milliseconds the conversion is the integer part of the
    exact time in milliseconds. *)
Lemma toMilliseconds_exact (s ns : Z) :
  (0 <= s)%Z -> (0 <= ns < 1000000000)%Z ->
  (s * 1000000000 + ns < 2 ^ 34 * 1000000)%Z ->
  toMilliseconds (s, ns) = (s * 1000 + ns / 1000000)%Z.
Proof.
  intros Hs Hns Hlt. unfold toMilliseconds, millisecondsOf. cbn [fst snd].
  set (k := (ns / 1000000)%Z). set (r := (ns mod 1000000)%Z).
  assert (Ens : ns = (k * 1000000 + r)%Z)
    by (unfold k, r; pose proof (Z.div_mod ns 1000000); lia).
  assert (Hr : (0 <= r < 1000000)%Z) by (apply Z.mod_pos_bound; lia).
  assert (Hk : (0 <= k < 1000)%Z).
  { unfold k. split; [apply Z.div_pos; lia|]. apply Z.div_lt_upper_bound; lia. }
  assert (EA : Double.mul (inject_Z s) 1000 == inject_Z (s * 1000)).
  { unfold Double.mul. change (inject_Z s * 1000) with (inject_Z (s * 1000)).
    apply round_integer. change (2 ^ 34)%Z with 17179869184%Z in Hlt.
    change (2 ^ 53)%Z with 9007199254740992%Z. lia. }
  set (A := Double.mul (inject_Z s) 1000) in *.
  assert (HsQ : 0 <= inject_Z s) by (change 0 with (inject_Z 0); now rewrite <- Zle_Qle).
  assert (HkQ : 0 <= inject_Z k <= 999).
  { split; [change 0 with (inject_Z 0) | change 999 with (inject_Z 999)];
      rewrite <- Zle_Qle; lia. }
  assert (HltQ : inject_Z s * 1000000000 + inject_Z ns <= 17179869183999999).
  { change 1000000000 with (inject_Z 1000000000).
    change 17179869183999999 with (inject_Z 17179869183999999).
    rewrite <- inject_Z_mult, <- inject_Z_plus, <- Zle_Qle.
    change (2 ^ 34)%Z with 17179869184%Z in Hlt. lia. }
  assert (ENs : inject_Z ns == inject_Z k * 1000000 + inject_Z r).
  { rewrite Ens at 1. rewrite inject_Z_plus, inject_Z_mult. reflexivity. }
  destruct (Z.eq_dec r 0) as [Hr0 | Hr0].
  - (* a whole number of milliseconds *)
    assert (EB : Double.mul (inject_Z ns) microsecond == inject_Z k).
    { replace ns with (k * 1000000)%Z by lia. now apply whole_milliseconds. }
    unfold Double.add.
    assert (E : A + Double.mul (inject_Z ns) microsecond == inject_Z (s * 1000 + k)).
    { rewrite EA, EB, <- inject_Z_plus. reflexivity. }
    rewrite (round_comp _ _ E).
    assert (Er : Double.round (inject_Z (s * 1000 + k)) == inject_Z (s * 1000 + k)).
    { apply round_integer. change (2 ^ 34)%Z with 17179869184%Z in Hlt.
      change (2 ^ 53)%Z with 9007199254740992%Z. lia. }
    unfold parseIntOfNumber.
    assert (H0 : Qle_bool 0 (Double.round (inject_Z (s * 1000 + k))) = true).
    { apply Qle_bool_iff. rewrite Er. change 0 with (inject_Z 0).
      rewrite <- Zle_Qle. lia. }
    rewrite H0, (Qfloor_comp _ _ Er). apply Qfloor_Z.
  - (* a fraction of at least a nanosecond and at most 999999 *)
    assert (HrQ : 1 <= inject_Z r <= 999999).
    { split; [change 1 with (inject_Z 1) | change 999999 with (inject_Z 999999)];
        rewrite <- Zle_Qle; lia. }
    assert (HnsQ : 0 <= inject_Z ns <= 999999999) by lra.
    pose proof (round_error_below (inject_Z ns * microsecond) 10
                  ltac:(lia) ltac:(lia)) as HB.
    rewrite microsecond_value in *.
    assert (HB' : Qabs (Double.round
                          (inject_Z ns * (4722366482869645 # 4722366482869645213696))
                        - inject_Z ns * (4722366482869645 # 4722366482869645213696))
                  <= 2 ^ (10 - 53) * (1 # 2)).
    { apply HB. change (inject_Z (2 ^ 10)) with 1024.
      apply Qabs_case; intros; lra. }
    clear HB. apply Qabs_Qle_condition in HB'.
    change (2 ^ (10 - 53)) with (1 # 8796093022208) in HB'.
    unfold Double.mul at 1. unfold Double.mul in A.
    set (B := Double.round
                (inject_Z ns * (4722366482869645 # 4722366482869645213696))) in *.
    unfold Double.add.
    pose proof (round_error_below (A + B) 34 ltac:(lia) ltac:(lia)) as HS.
    assert (HS' : Qabs (Double.round (A + B) - (A + B)) <= 2 ^ (34 - 53) * (1 # 2)).
    { apply HS. change (inject_Z (2 ^ 34)) with 17179869184.
      rewrite inject_Z_mult in EA. change (inject_Z 1000) with 1000 in EA.
      apply Qabs_case; intros; lra. }
    clear HS. apply Qabs_Qle_condition in HS'.
    change (2 ^ (34 - 53)) with (1 # 524288) in HS'.
    set (S := Double.round (A + B)) in *.
    rewrite inject_Z_mult in EA. change (inject_Z 1000) with 1000 in EA.
    unfold parseIntOfNumber.
    assert (H0 : Qle_bool 0 S = true) by (apply Qle_bool_iff; lra).
    rewrite H0. apply Qfloor_unique; rewrite ?inject_Z_plus, ?inject_Z_mult;
      change (inject_Z 1000) with 1000; lra.
Qed.

End DoubleRounding.

(** For a reading of the clock below [2^34] ms. *)
Lemma toMilliseconds_reading (t : hrtime) :
  isReading t -> nanoseconds t < 2 ^ 34 * 1000000 ->
  toMilliseconds t = nanoseconds t / 1000000.
Proof.
  destruct t as [s ns]. unfold isReading, nanoseconds. cbn [fst snd].
  intros (Hs & Hns) Hlt. rewrite toMilliseconds_exact by lia.
  replace (s * 1000000000 + ns) with (ns + (s * 1000) * 1000000) by lia.
  rewrite Z.div_add by lia. lia.
Qed.

(** On the sample timestamps the doubles of [Double] are those of the
    machine. *)
Lemma millisecondsOf_binary64 :
  map (fun t => Binary64.toQ (Binary64.milliseconds (fst t) (snd t))) sampleTimestamps
  = map (fun t => Some (millisecondsOf t)) sampleTimestamps.
Proof. vm_compute. reflexivity. Qed.

Lemma buildHeader_fragment (h : HeaderMetric) (old : bool) :
  buildHeader h old =
  fragment old (hm_name h) (hm_description h)
    (orElse (hm_duration h) (calculateDuration (hm_from h) (hm_to h))).
Proof.
  unfold buildHeader, fragment. now destruct old.
Qed.

Lemma renderEntries_In (old : bool) (init : hrtime) (l : list (string * Metric.t))
    (p : Process) (e : string * Metric.t) :
  In e l ->
  exists p', In (fst (renderEntry old init p' e)) (fst (renderEntries old init p l)).
Proof.
  revert p. induction l as [|e' l IH]; intros p Hin; [destruct Hin|].
  cbn [renderEntries].
  destruct (renderEntry old init p e') as [x p1] eqn:E1.
  destruct Hin as [-> | Hin].
  - exists p. rewrite E1.
    destruct (renderEntries old init p1 l) as [xs p2]. now left.
  - destruct (IH p1 Hin) as (p' & Hp').
    exists p'. destruct (renderEntries old init p1 l) as [xs p2]. now right.
Qed.

Lemma renderEntries_length (old : bool) (init : hrtime) (l : list (string * Metric.t))
    (p : Process) :
  length (fst (renderEntries old init p l)) = length l.
Proof.
  revert p. induction l as [|e l IH]; intros p; [reflexivity|].
  cbn [renderEntries].
  destruct (renderEntry old init p e) as [x p1].
  specialize (IH p1). destruct (renderEntries old init p1 l) as [xs p2].
  cbn [fst length] in *. now rewrite IH.
Qed.

(** A fragment that is rendered is among the values of the header. *)
Lemma rendered_in_header (w : World) (x : string) :
  headerSent (response w) = false ->
  In x (rendered w) ->
  headers (response (after addHeaders w)) =
    HArray (existingValues (headers (response w)) ++ rendered w)
  /\ In x (existingValues (headers (response w)) ++ rendered w).
Proof.
  intros Hs Hin. unfold after. rewrite (addHeaders_not_sent w Hs). cbn [snd].
  unfold finalized. cbn [response]. fold (rendered w).
  assert (Hx : In x (existingValues (headers (response w)) ++ rendered w))
    by (apply in_or_app; now right).
  destruct (existingValues (headers (response w)) ++ rendered w) as [|v vs];
    [destruct Hx|]. now split.
Qed.

Lemma finalized_headersSent (w : World) :
  finalized (withHeadersSent w) = withHeadersSent (finalized w).
Proof.
  unfold finalized, withHeadersSent. cbn [process this response headers headerSent
    headersSent onHeadersListeners].
  now destruct (existingValues (headers (response w)) ++ _).
Qed.

(** C4. [addHeaders] does not see that the headers were sent.  It tests
    [response.headerSent]; the flag of a response of Express is [headersSent],
    which it never reads: a finalization gives the same result whatever that
    flag is.  So on a response that does not define [headerSent], a
    finalization after the headers were sent does not throw: it completes,
    writes the fragments it renders into the header and empties the
    metrics. *)
Theorem sent_headers_are_not_detected :
  forall (w : World),
    headersSent (response w) = true ->
    headerSent (response w) = false ->
    completionOf addHeaders w = Normal tt
    /\ metrics (this (after addHeaders w)) = []
    /\ (rendered w <> [] ->
        headers (response (after addHeaders w))
        = HArray (existingValues (headers (response w)) ++ rendered w))
    /\ (forall w', completionOf addHeaders (withHeadersSent w')
                   = completionOf addHeaders w'
                   /\ after addHeaders (withHeadersSent w')
                      = withHeadersSent (after addHeaders w'))
    /\ ~ raisesWhenHeadersSent w.
Proof.
  intros w Hsent Hs.
  assert (Hc : completionOf addHeaders w = Normal tt)
    by (unfold completionOf; now rewrite (addHeaders_not_sent w Hs)).
  split; [exact Hc|]. split; [|split; [|split]].
  - unfold after. now rewrite (addHeaders_not_sent w Hs).
  - intros Hne. destruct (rendered w) as [|x xs] eqn:E; [congruence|].
    rewrite <- E in *. apply (rendered_in_header w x Hs). rewrite E. now left.
  - intros w'. unfold completionOf, after.
    destruct (headerSent (response w')) eqn:Hs'.
    + rewrite (addHeaders_sent w' Hs').
      now rewrite (addHeaders_sent (withHeadersSent w') Hs').
    + rewrite (addHeaders_not_sent w' Hs').
      rewrite (addHeaders_not_sent (withHeadersSent w') Hs'). cbn [fst snd].
      split; [reflexivity | apply finalized_headersSent].
  - intros H. destruct (H Hsent) as (Ht & _). congruence.
Qed.

Lemma sent_headers_are_not_detected_witness :
  (headersSent (response expressSentWorld) = true
   /\ headerSent (response expressSentWorld) = false)
  /\ completionOf addHeaders expressSentWorld = Normal tt
  /\ metrics (this (after addHeaders expressSentWorld)) = []
  /\ headers (response (after addHeaders expressSentWorld))
     = HArray [newStyle "db" (Some "query") (Some 5)].
Proof.
  split; [split; reflexivity|].
  destruct (sent_headers_are_not_detected expressSentWorld eq_refl eq_refl)
    as (Hc & Hm & Hh & _).
  split; [exact Hc|]. split; [exact Hm|].
  apply Hh. discriminate.
Defined.

(** C1. At the finalization, a metric that has both [from] and [to] and no
    duration is rendered with the absolute value of
    [toMillis(to) - toMillis(from)], which is never negative.  [toMillis] of
    [[s, ns]] is the integer part of the double [s * 1e3 + ns * 1e-6]: for a
    reading of the clock below [2^34] ms this is the integer part of
    [s * 1000 + ns / 1e6]; from there on the sum can round to the next
    millisecond, as it does for [[17179870, 999999999]]. *)
Theorem duration_is_absolute_difference :
  forall (w : World) (n : string) (m : Metric.t) (f t : hrtime),
    headerSent (response w) = false ->
    In (n, m) (updatedMetrics (this w)) ->
    Metric.from m = Some f -> Metric.to m = Some t -> Metric.duration m = None ->
    (exists values,
        headers (response (after addHeaders w)) = HArray values /\
        In (fragment (oldSpecification (this w)) n (Metric.description m)
              (Z.abs (toMilliseconds t - toMilliseconds f))) values)
    /\ 0 <= Z.abs (toMilliseconds t - toMilliseconds f)
    /\ (isReading t -> nanoseconds t < 2 ^ 34 * 1000000 ->
        toMilliseconds t = Z.quot (nanoseconds t) 1000000)
    /\ (isReading f -> nanoseconds f < 2 ^ 34 * 1000000 ->
        toMilliseconds f = Z.quot (nanoseconds f) 1000000)
    /\ toMilliseconds (17179870, 999999999) = 17179871000.
Proof.
  intros w n m f t Hs Hin Hf Ht Hd. split; [|split; [apply Z.abs_nonneg|]].
  - apply Object_entries_In in Hin.
    destruct (renderEntries_In (oldSpecification (this w)) (initialized (this w))
                _ (process w) _ Hin) as (p' & Hp').
    fold (rendered w) in Hp'.
    unfold renderEntry in Hp'. cbn [fst snd] in Hp'. rewrite Hf, Ht, Hd in Hp'.
    cbn [fst] in Hp'. rewrite buildHeader_fragment in Hp'.
    cbn [hm_name hm_description hm_duration hm_from hm_to orElse] in Hp'.
    unfold calculateDuration in Hp'.
    destruct (rendered_in_header w _ Hs Hp') as (Hh & Hx).
    eexists. split; [exact Hh | exact Hx].
  - split; [|split; [|vm_compute; reflexivity]]; intros Hr Hlt;
      rewrite (toMilliseconds_reading _ Hr Hlt);
      symmetry; apply Z.quot_div_nonneg; unfold isReading, nanoseconds in *; lia.
Qed.

Lemma duration_is_absolute_difference_witness :
  (exists values,
      headers (response (after addHeaders reversedWorld)) = HArray values /\
      In (fragment (oldSpecification (this reversedWorld)) "db"
            (Metric.description reversedMetric)
            (Z.abs (toMilliseconds (1, 0) - toMilliseconds (2, 0)))) values)
  /\ 0 <= Z.abs (toMilliseconds (1, 0) - toMilliseconds (2, 0))
  /\ (isReading (1, 0) -> nanoseconds (1, 0) < 2 ^ 34 * 1000000 ->
      toMilliseconds (1, 0) = Z.quot (nanoseconds (1, 0)) 1000000)
  /\ (isReading (2, 0) -> nanoseconds (2, 0) < 2 ^ 34 * 1000000 ->
      toMilliseconds (2, 0) = Z.quot (nanoseconds (2, 0)) 1000000)
  /\ toMilliseconds (17179870, 999999999) = 17179871000.
Proof.
  apply (duration_is_absolute_difference reversedWorld "db" reversedMetric (2, 0) (1, 0)).
  - reflexivity.
  - left. reflexivity.
  - reflexivity.
  - reflexivity.
  - reflexivity.
Defined.

(** The duration is not signed: when [to] was recorded before [from], the
    header holds [db;dur=1000], not [db;dur=-1000]. *)
Lemma signed_duration_refuted : ~ rendersSignedDuration reversedWorld "db".
Proof.
  intros H.
  destruct (H reversedMetric (2, 0) (1, 0)) as (values & Hh & Hin);
    try reflexivity; [left; reflexivity|].
  vm_compute in Hh. injection Hh as <-.
  vm_compute in Hin. destruct Hin as [Hin | []]. discriminate Hin.
Qed.

(** C2. A duration of 0 does not take precedence: with timestamps one second
    apart, [buildHeader] renders 1000 and [calculateDurationSmart] returns
    1000; a metric added with a duration of 0 is rendered with the time since
    the session was created. *)
Theorem zero_duration_is_recomputed :
  buildHeader {| hm_name := "db"; hm_description := None; hm_duration := Some 0;
                 hm_from := (0, 0); hm_to := (1, 0) |} false
  = newStyle "db" None (Some 1000)
  /\ completionOf (calculateDurationSmart zeroMetric) (requestWorld modernChrome)
     = Normal 1000
  /\ headers (response (after (add "db" None (Some 0) ;; addHeaders)
                          (requestWorld modernChrome)))
     = HArray [newStyle "db" None (Some 1000)]
  /\ ~ explicitDurationWins (requestWorld modernChrome) "db" zeroMetric 0 (0, 0) (1, 0).
Proof.
  split; [reflexivity|]. split; [reflexivity|]. split; [reflexivity|].
  intros H. destruct (H eq_refl) as (_ & Hc). vm_compute in Hc. discriminate Hc.
Qed.

(** X1. A duration that is defined and not 0 is what [buildHeader] renders and
    what [calculateDurationSmart] returns, whatever the timestamps, the time
    of initialization and the clock. *)
Theorem nonzero_duration_wins :
  forall (w : World) (name : string) (m : Metric.t) (d : Z) (from to : hrtime),
    d <> 0 -> explicitDurationWins w name m d from to.
Proof.
  intros w name m d from to Hd Hm. split.
  - rewrite buildHeader_fragment. cbn [hm_name hm_description hm_duration].
    rewrite Hm. unfold orElse, truthyNumber.
    now replace (d =? 0) with false by (symmetry; apply Z.eqb_neq, Hd).
  - unfold completionOf, calculateDurationSmart, bind, getThis, ret, process_hrtime.
    rewrite Hm. unfold orElse, truthyNumber.
    replace (d =? 0) with false by (symmetry; apply Z.eqb_neq, Hd). cbn [negb].
    destruct (Metric.to m); [reflexivity|].
    now destruct (hrtimeOf (process w)).
Qed.

Lemma nonzero_duration_wins_witness :
  234 <> 0 /\ explicitDurationWins (requestWorld oldChrome) "db" timedMetric 234 (0, 0) (1, 0).
Proof.
  split; [discriminate | apply nonzero_duration_wins; discriminate].
Defined.

(** ** The user agent *)

Lemma prefix_append (pat s : string) :
  prefix pat s = true <-> exists post, s = (pat ++ post)%string.
Proof.
  revert s. induction pat as [|c pat IH]; intros s.
  - split; [intros _; now exists s | now destruct s].
  - destruct s as [|c' s]; simpl;
      [split; [discriminate | intros (post & H); discriminate]|].
    destruct (ascii_dec c c') as [-> | Hne].
    + rewrite IH. split; intros (post & H); exists post;
        [now rewrite H | now injection H].
    + split; [discriminate|]. intros (post & H). injection H as H1 H2. congruence.
Qed.

Lemma indexOfFrom_found (i : Z) (s pat : string) :
  0 <= i ->
  ((indexOfFrom i s pat >? -1) = true <->
   exists pre post, s = (pre ++ pat ++ post)%string).
Proof.
  revert i. induction s as [|c s IH]; intros i Hi.
  - cbn [indexOfFrom]. destruct (prefix pat EmptyString) eqn:E.
    + split; [intros _ | intros _; apply Z.gtb_lt; lia].
      apply prefix_append in E. destruct E as (post & E).
      now exists EmptyString, post.
    + split; [discriminate|]. intros (pre & post & H).
      destruct pre; [|discriminate]. simpl in H.
      assert (prefix pat EmptyString = true) by (apply prefix_append; now exists post).
      congruence.
  - cbn [indexOfFrom]. destruct (prefix pat (String c s)) eqn:E.
    + split; [intros _ | intros _; apply Z.gtb_lt; lia].
      apply prefix_append in E. destruct E as (post & E).
      now exists EmptyString, post.
    + rewrite (IH (i + 1)) by lia. split.
      * intros (pre & post & ->). now exists (String c pre), post.
      * intros (pre & post & H). destruct pre as [|c' pre].
        -- simpl in H.
           assert (prefix pat (String c s) = true)
             by (apply prefix_append; now exists post).
           congruence.
        -- injection H as _ ->. now exists pre, post.
Qed.

(** [isChrome]: the user agent contains [" Chrome/"], in this case. *)
Lemma isChromeOf_contains (userAgent : string) :
  isChromeOf userAgent = true <->
  exists pre post, userAgent = (pre ++ " Chrome/" ++ post)%string.
Proof.
  unfold isChromeOf, indexOf. apply indexOfFrom_found. lia.
Qed.

(** What [exec] returns are the captures of a match at some position. *)
Lemma execFrom_Some (i : bool) (p : RegExp.Pattern) (k : nat) (s : string)
    (caps : list string) :
  RegExp.execFrom i p k s = Some caps ->
  exists k' s' c,
    In c (RegExp.matchHere i p
            {| RegExp.rest := s'; RegExp.index := k'; RegExp.captures := [] |})
    /\ RegExp.captures c = caps.
Proof.
  revert k. induction s as [|ch s IH]; intros k; cbn [RegExp.execFrom].
  - destruct (RegExp.matchHere i p _) as [|c l] eqn:E; [discriminate|].
    intros [= <-]. exists k, EmptyString, c. rewrite E. split; [now left | reflexivity].
  - destruct (RegExp.matchHere i p _) as [|c l] eqn:E.
    + apply IH.
    + intros [= <-]. exists k, (String ch s), c. rewrite E.
      split; [now left | reflexivity].
Qed.

Lemma literal_captures (i : bool) (lit : string) (c c' : RegExp.Cursor) :
  In c' (RegExp.matchHere i (RegExp.literal lit) c) ->
  RegExp.captures c' = RegExp.captures c.
Proof.
  revert c. induction lit as [|ch lit IH]; intros c; cbn [RegExp.literal RegExp.matchHere].
  - intros [<- | []]. reflexivity.
  - rewrite in_flat_map. intros (c1 & H1 & H2). rewrite (IH _ H2).
    destruct (RegExp.rest c); [destruct H1|].
    destruct (RegExp.atomMatches _ _ _); [|destruct H1].
    destruct H1 as [<- | []]. reflexivity.
Qed.

Lemma digitClass_ignoreCase (c : ascii) :
  RegExp.atomMatches true (RegExp.Class isDigit) c = isDigit c.
Proof.
  destruct c as [[] [] [] [] [] [] [] []]; vm_compute; reflexivity.
Qed.

(** What [[\d]+] takes starts with a digit. *)
Lemma plusMatches_digits (s r : string) (n : nat) :
  In (n, r) (RegExp.plusMatches true (RegExp.Class isDigit) s) ->
  exists c s', substring 0 n s = String c s' /\ isDigit c = true.
Proof.
  destruct s as [|c s]; cbn [RegExp.plusMatches]; [intros []|].
  rewrite digitClass_ignoreCase. destruct (isDigit c) eqn:E; [|intros []].
  intros H. apply in_app_or in H. destruct H as [H | [H | []]].
  - apply in_map_iff in H. destruct H as ([n' r'] & [= <- <-] & _).
    simpl. eauto.
  - injection H as <- <-. simpl. eauto.
Qed.

Lemma parseInt_digit (c : ascii) (s : string) :
  isDigit c = true -> exists z, parseInt (String c s) = Int z.
Proof.
  intros H. unfold parseInt. rewrite H. eauto.
Qed.

(** The version that is parsed is a number. *)
Lemma chromeVersionOf_number (userAgent : string) :
  chromeVersionOf userAgent = None \/ exists z, chromeVersionOf userAgent = Some (Int z).
Proof.
  unfold chromeVersionOf, RegExp.exec.
  destruct (RegExp.execFrom true chromeVersionPattern 0 userAgent) as [caps|] eqn:E;
    [right | now left].
  apply execFrom_Some in E. destruct E as (k & s & c & Hin & <-).
  unfold chromeVersionPattern in Hin. cbn [RegExp.matchHere] in Hin.
  apply in_flat_map in Hin. destruct Hin as (c1 & H1 & Hin).
  apply literal_captures in H1. cbn [RegExp.captures] in H1.
  apply in_flat_map in Hin. destruct Hin as (c2 & H2 & Hin).
  apply in_map_iff in H2. destruct H2 as (c3 & <- & H3).
  apply in_map_iff in H3. destruct H3 as ([n r] & <- & H3).
  cbn [RegExp.rest RegExp.index RegExp.captures] in Hin.
  destruct r as [|ch r]; [destruct Hin|].
  destruct (RegExp.atomMatches true RegExp.Dot ch); [|destruct Hin].
  destruct Hin as [<- | []]. cbn [RegExp.captures].
  rewrite H1. unfold firstCapture. cbn [app nth].
  replace (RegExp.index c1 + n - RegExp.index c1)%nat with n by lia.
  destruct (plusMatches_digits _ _ _ H3) as (d & s' & -> & Hd).
  destruct (parseInt_digit d s' Hd) as (z & ->). eauto.
Qed.

(** C3. The flag [oldSpecification] is true exactly when the user agent
    contains [" Chrome/"] and the version pattern either does not match or
    gives a version of at most 64.  A user agent with [" Chrome/"] and no
    version that the pattern can read is therefore in the old format; one
    without [" Chrome/"] is in the current format. *)
Theorem legacy_flag_characterisation :
  forall (userAgent : string) (sendHeaders' : option bool) (p : Process),
    (oldSpecification (fst (constructor (Some userAgent) sendHeaders' p)) = true <->
     (exists pre post, userAgent = (pre ++ " Chrome/" ++ post)%string) /\
     (chromeVersionOf userAgent = None \/
      exists v, chromeVersionOf userAgent = Some (Int v) /\ v <= 64))
    /\ (isChromeOf userAgent = true -> chromeVersionOf userAgent = None ->
        oldSpecification (fst (constructor (Some userAgent) sendHeaders' p)) = true)
    /\ (isChromeOf userAgent = false ->
        oldSpecification (fst (constructor (Some userAgent) sendHeaders' p)) = false).
Proof.
  intros userAgent sh p.
  assert (E : oldSpecification (fst (constructor (Some userAgent) sh p)) =
              isChromeOf userAgent &&
              negb (isChromeOf userAgent && greaterThan (chromeVersionOf userAgent) 64)).
  { unfold constructor. now destruct (hrtimeOf p). }
  rewrite E. split; [|split].
  - rewrite <- isChromeOf_contains.
    destruct (isChromeOf userAgent); cbn [andb]; [|split; [discriminate | intros []; discriminate]].
    destruct (chromeVersionOf_number userAgent) as [-> | (z & ->)]; cbn [greaterThan].
    + split; [intros _; split; [reflexivity | now left] | reflexivity].
    + destruct (z >? 64) eqn:G; cbn [negb].
      * split; [discriminate|]. intros (_ & [H | (v & [= <-] & Hv)]); [discriminate|].
        apply Z.gtb_lt in G. lia.
      * split; [|reflexivity]. intros _. split; [reflexivity|]. right. exists z.
        split; [reflexivity|]. rewrite Z.gtb_ltb in G. apply Z.ltb_ge in G. lia.
  - intros -> ->. reflexivity.
  - intros ->. reflexivity.
Qed.

(** A Chrome token without a version that the pattern reads: the
    specification makes the session current, the constructor makes it legacy. *)
Lemma unread_chrome_version_is_legacy :
  oldSpecification (fst (constructor (Some "Mozilla/5.0 Chrome/beta") None secondsClock))
  = true
  /\ legacyAsWorded "Mozilla/5.0 Chrome/beta" = false
  /\ isChromeOf "Mozilla/5.0 Chrome/beta" = true
  /\ chromeVersionOf "Mozilla/5.0 Chrome/beta" = None.
Proof.
  repeat split; reflexivity.
Qed.

Example chrome_62_is_legacy :
  oldSpecification (this (requestWorld oldChrome)) = true.
Proof. reflexivity. Qed.

Example chrome_72_is_current :
  oldSpecification (this (requestWorld modernChrome)) = false.
Proof. reflexivity. Qed.

(** ** Hooks *)

Lemma transformAll_app (l1 l2 : list Hook.t) (ms : Metrics) :
  transformAll (l1 ++ l2) ms = transformAll l2 (transformAll l1 ms).
Proof.
  revert ms. induction l1 as [|h l1 IH]; intros ms; simpl; [reflexivity|]. apply IH.
Qed.

Lemma sortedHooks_Permutation (self : ServerTiming) :
  Permutation (sortedHooks self) (hooks self).
Proof. apply (Array_sort_Permutation Hook.index). Qed.

Lemma sortedHooks_StronglySorted (self : ServerTiming) :
  StronglySorted (keyLeq Hook.index) (sortedHooks self).
Proof. apply (Array_sort_StronglySorted Hook.index). Qed.

Lemma addHook_hooks (name : string) (cb : Metrics -> Metrics) (i : option Z) (w : World) :
  hooks (this (after (addHook name cb i) w)) =
  hooks (this w) ++
  [hookOf name cb (match i with Some i' => i' | None => defaultIndex w end)].
Proof. reflexivity. Qed.

Lemma addHeaders_withHooksApplied (w : World) :
  response (after addHeaders w) = response (after addHeaders (withHooksApplied w))
  /\ process (after addHeaders w) = process (after addHeaders (withHooksApplied w)).
Proof.
  unfold after. destruct (headerSent (response w)) eqn:Hs.
  - rewrite (addHeaders_sent w Hs), (addHeaders_sent (withHooksApplied w) Hs).
    now split.
  - rewrite (addHeaders_not_sent w Hs), (addHeaders_not_sent (withHooksApplied w) Hs).
    now split.
Qed.

Lemma addHook_after (name : string) (cb : Metrics -> Metrics) (i : option Z)
    (k : JS unit) (w : World) :
  after (addHook name cb i ;; k) w = after k (after (addHook name cb i) w).
Proof. reflexivity. Qed.

Lemma addHooks_app (calls1 calls2 : list HookCall) (w : World) :
  after (addHooks (calls1 ++ calls2)) w =
  after (addHooks calls2) (after (addHooks calls1) w).
Proof.
  revert w. induction calls1 as [|[[name cb] i] calls1 IH]; intros w.
  - cbn [app addHooks]. unfold after at 3, ret. reflexivity.
  - cbn [app addHooks]. rewrite !addHook_after. apply IH.
Qed.

Lemma addHooks_keeps (calls : list HookCall) (w : World) (h : Hook.t) :
  In h (hooks (this w)) -> In h (hooks (this (after (addHooks calls) w))).
Proof.
  revert w. induction calls as [|[[name cb] i] calls IH]; intros w Hin.
  - exact Hin.
  - cbn [addHooks]. rewrite addHook_after. apply IH.
    rewrite addHook_hooks. apply in_or_app. now left.
Qed.

(** Whatever calls of [addHook] come before, between and after them: a hook
    added with an index below the one an earlier hook got by default is
    called before that hook. *)
Lemma later_lower_index_first (w : World) (calls1 calls2 calls3 : list HookCall)
    (n1 n2 : string) (cb1 cb2 : Metrics -> Metrics) (i : Z) :
  i < defaultIndex (after (addHooks calls1) w) ->
  exists l1 l2 l3,
    sortedHooks (this (after (addHooks (calls1 ++ (n1, cb1, None) :: calls2 ++
                                          (n2, cb2, Some i) :: calls3)) w))
    = l1 ++ hookOf n2 cb2 i :: l2 ++
      hookOf n1 cb1 (defaultIndex (after (addHooks calls1) w)) :: l3.
Proof.
  intros Hi. rewrite addHooks_app. set (w1 := after (addHooks calls1) w) in *.
  cbn [addHooks]. rewrite addHook_after.
  set (w2 := after (addHook n1 cb1 None) w1).
  rewrite addHooks_app. set (w3 := after (addHooks calls2) w2).
  cbn [addHooks]. rewrite addHook_after.
  apply (Array_sort_smaller_first Hook.index); [| |exact Hi].
  - apply addHooks_keeps. rewrite addHook_hooks. apply in_or_app. right. now left.
  - apply addHooks_keeps. rewrite addHook_hooks. apply in_or_app. left.
    apply addHooks_keeps. unfold w2. rewrite addHook_hooks.
    apply in_or_app. right. now left.
Qed.

(** C6. [addHook] appends the hook, with the index [hooks.length + 1] when
    none is given.  [addHeaders] calls the hooks in ascending order of index,
    hooks of the same index in the order of the array (the order in which
    they were added); so, in any sequence of calls of [addHook], a hook added
    later with an index below the one an earlier hook received by default is
    called before it.  What is
    serialized is the result of the last hook applied to the result of the
    one before, down to the first applied to the metrics: the response is the
    one a session without hooks holding that result would produce. *)
Theorem hooks_run_in_index_order :
  forall (w : World),
    (forall name cb,
        hooks (this (after (addHook name cb None) w)) =
        hooks (this w) ++ [hookOf name cb (defaultIndex w)])
    /\ (forall name cb i,
        hooks (this (after (addHook name cb (Some i)) w)) =
        hooks (this w) ++ [hookOf name cb i])
    /\ StronglySorted (keyLeq Hook.index) (sortedHooks (this w))
    /\ Permutation (sortedHooks (this w)) (hooks (this w))
    /\ (forall k,
        filter (fun h => Hook.index h =? k) (sortedHooks (this w)) =
        filter (fun h => Hook.index h =? k) (hooks (this w)))
    /\ (forall a b,
        In a (hooks (this w)) -> In b (hooks (this w)) ->
        Hook.index a < Hook.index b ->
        exists l1 l2 l3, sortedHooks (this w) = l1 ++ a :: l2 ++ b :: l3)
    /\ (forall calls1 n1 cb1 calls2 n2 cb2 i calls3,
        i < defaultIndex (after (addHooks calls1) w) ->
        exists l1 l2 l3,
          sortedHooks (this (after (addHooks (calls1 ++ (n1, cb1, None) :: calls2 ++
                                                (n2, cb2, Some i) :: calls3)) w))
          = l1 ++ hookOf n2 cb2 i :: l2 ++
            hookOf n1 cb1 (defaultIndex (after (addHooks calls1) w)) :: l3)
    /\ updatedMetrics (this w) = transformAll (sortedHooks (this w)) (metrics (this w))
    /\ response (after addHeaders w) = response (after addHeaders (withHooksApplied w))
    /\ (headerSent (response w) = false ->
        hooks (this (after addHeaders w)) = sortedHooks (this w)).
Proof.
  intros w. repeat split.
  - apply sortedHooks_StronglySorted.
  - apply sortedHooks_Permutation.
  - intros k. apply (Array_sort_stable Hook.index).
  - intros a b. apply (Array_sort_smaller_first Hook.index).
  - intros calls1 n1 cb1 calls2 n2 cb2 i calls3. apply later_lower_index_first.
  - apply addHeaders_withHooksApplied.
  - intros Hs. unfold after. now rewrite (addHeaders_not_sent w Hs).
Qed.

Example later_hook_with_lower_index_runs_first :
  map Hook.name
    (sortedHooks (this (after (addHook "first" clearAll None ;;
                               addHook "second" clearAll None ;;
                               addHook "early" clearAll (Some 1) ;;
                               addHook "tie" clearAll (Some 2))
                              (requestWorld modernChrome))))
  = ["first"; "early"; "second"; "tie"].
Proof. reflexivity. Qed.

(** ** What a finalization writes *)

Lemma transformAll_nil (l : list Hook.t) :
  (forall h, In h l -> Hook.callback h [] = []) -> transformAll l [] = [].
Proof.
  induction l as [|h l IH]; intros H; [reflexivity|].
  cbn [transformAll]. rewrite (H h) by now left.
  apply IH. intros h' Hin. apply H. now right.
Qed.

Lemma finalized_response_unchanged (w : World) :
  rendered w = [] -> response (finalized w) = response w.
Proof.
  intros Hr. unfold finalized. cbn [response]. fold (rendered w). rewrite Hr, app_nil_r.
  destruct (response w) as [flag sent h ls].
  cbn [headers headersSent headerSent onHeadersListeners].
  destruct h as [|s|[|v vs]]; reflexivity.
Qed.

Lemma finalized_headers (w : World) :
  existingValues (headers (response w)) ++ rendered w <> [] ->
  headers (response (finalized w)) =
  HArray (existingValues (headers (response w)) ++ rendered w).
Proof.
  intros Hne. unfold finalized. cbn [response]. fold (rendered w).
  destruct (existingValues (headers (response w)) ++ rendered w); [congruence|].
  reflexivity.
Qed.

(** C7. A finalization that succeeds sets the header exactly when the list
    of fragments (the values of an array already on the response, then the
    fragments it rendered) is not empty, and leaves the response as it was
    when that list is empty, and also when it rendered no fragment; it empties
    the metrics and keeps the hooks (in the order of the sort).  When no hook
    adds an entry to the empty metrics, a second finalization renders no
    fragment and leaves the response as the first one left it. *)
Theorem finalization_writes_and_clears :
  forall (w : World),
    headerSent (response w) = false ->
    completionOf addHeaders w = Normal tt
    /\ (existingValues (headers (response w)) ++ rendered w <> [] ->
        headers (response (after addHeaders w)) =
        HArray (existingValues (headers (response w)) ++ rendered w))
    /\ (existingValues (headers (response w)) ++ rendered w = [] ->
        response (after addHeaders w) = response w)
    /\ (rendered w = [] -> response (after addHeaders w) = response w)
    /\ metrics (this (after addHeaders w)) = []
    /\ Permutation (hooks (this (after addHeaders w))) (hooks (this w))
    /\ ((forall h, In h (hooks (this w)) -> Hook.callback h [] = []) ->
        completionOf addHeaders (after addHeaders w) = Normal tt
        /\ rendered (after addHeaders w) = []
        /\ response (after addHeaders (after addHeaders w))
           = response (after addHeaders w)).
Proof.
  intros w Hs. unfold completionOf, after. rewrite (addHeaders_not_sent w Hs).
  cbn [fst snd].
  assert (Hs' : headerSent (response (finalized w)) = false).
  { unfold finalized. cbn [response].
    destruct (existingValues _ ++ _); [exact Hs | exact Hs]. }
  split; [reflexivity|]. split; [|split; [|split; [|split; [|split]]]].
  - apply finalized_headers.
  - intros E. apply finalized_response_unchanged.
    apply app_eq_nil in E. now destruct E.
  - apply finalized_response_unchanged.
  - reflexivity.
  - apply sortedHooks_Permutation.
  - intros Hh. rewrite (addHeaders_not_sent _ Hs'). cbn [fst snd].
    assert (Hr : rendered (finalized w) = []).
    { unfold rendered, updatedMetrics. cbn [this metrics].
      rewrite transformAll_nil; [reflexivity|].
      intros h Hin. apply Hh.
      apply (Permutation_in _ (sortedHooks_Permutation _)) in Hin.
      cbn [hooks this finalized] in Hin.
      apply (Permutation_in _ (sortedHooks_Permutation _)) in Hin. exact Hin. }
    split; [reflexivity|]. split; [exact Hr|].
    now apply finalized_response_unchanged.
Qed.

Lemma finalization_writes_and_clears_witness :
  headerSent (response hookedWorld) = false
  /\ completionOf addHeaders hookedWorld = Normal tt
  /\ (existingValues (headers (response hookedWorld)) ++ rendered hookedWorld <> [] ->
      headers (response (after addHeaders hookedWorld)) =
      HArray (existingValues (headers (response hookedWorld)) ++ rendered hookedWorld))
  /\ (existingValues (headers (response hookedWorld)) ++ rendered hookedWorld = [] ->
      response (after addHeaders hookedWorld) = response hookedWorld)
  /\ (rendered hookedWorld = [] ->
      response (after addHeaders hookedWorld) = response hookedWorld)
  /\ metrics (this (after addHeaders hookedWorld)) = []
  /\ Permutation (hooks (this (after addHeaders hookedWorld))) (hooks (this hookedWorld))
  /\ ((forall h, In h (hooks (this hookedWorld)) -> Hook.callback h [] = []) ->
      completionOf addHeaders (after addHeaders hookedWorld) = Normal tt
      /\ rendered (after addHeaders hookedWorld) = []
      /\ response (after addHeaders (after addHeaders hookedWorld))
         = response (after addHeaders hookedWorld)).
Proof.
  split; [reflexivity | apply finalization_writes_and_clears; reflexivity].
Defined.

(** C8. When [response.headers['server-timing']] is an array that is not
    empty, the header is set to its values, in their order, followed by the
    fragments that were rendered. *)
Theorem fragments_appended_to_array :
  forall (w : World) (existing : list string),
    headerSent (response w) = false ->
    headers (response w) = HArray existing ->
    existing <> [] ->
    headers (response (after addHeaders w)) = HArray (existing ++ rendered w).
Proof.
  intros w existing Hs Hh Hne. unfold after. rewrite (addHeaders_not_sent w Hs).
  cbn [snd]. rewrite finalized_headers; rewrite Hh; cbn [existingValues]; [reflexivity|].
  intros E. apply app_eq_nil in E. now destruct E.
Qed.

Lemma fragments_appended_to_array_witness :
  headerSent (response arrayHeaderWorld) = false
  /\ headers (response arrayHeaderWorld) = HArray ["cache;dur=1"; "auth;dur=2"]
  /\ ["cache;dur=1"; "auth;dur=2"] <> []
  /\ headers (response (after addHeaders arrayHeaderWorld))
     = HArray (["cache;dur=1"; "auth;dur=2"] ++ rendered arrayHeaderWorld).
Proof.
  split; [reflexivity|]. split; [reflexivity|]. split; [discriminate|].
  apply fragments_appended_to_array; [reflexivity | reflexivity | discriminate].
Defined.

(** A header that another middleware has set to one string is replaced by
    the fragments: its value is not kept. *)
Lemma string_header_is_replaced : ~ appendsToExisting stringHeaderWorld.
Proof.
  intros H. assert (Hne : valuesOf (headers (response stringHeaderWorld)) <> [])
    by discriminate.
  specialize (H Hne). vm_compute in H. discriminate H.
Qed.

(** ** [add] *)

Lemma replaceOwn_In (ms : Metrics) (name : string) (m : Metric.t) :
  ownProperty ms name <> None -> In (name, m) (replaceOwn ms name m).
Proof.
  induction ms as [|[k m'] ms IH]; cbn [ownProperty replaceOwn]; [congruence|].
  destruct (String.eqb k name) eqn:E.
  - intros _. apply String.eqb_eq in E. subst. now left.
  - intros H. right. now apply IH.
Qed.

Lemma ownProperty_replaceOwn (ms : Metrics) (name : string) (m : Metric.t) :
  ownProperty ms name <> None -> ownProperty (replaceOwn ms name m) name = Some m.
Proof.
  induction ms as [|[k m'] ms IH]; cbn [ownProperty replaceOwn]; [congruence|].
  destruct (String.eqb k name) eqn:E; cbn [ownProperty]; rewrite E; [reflexivity | exact IH].
Qed.

Lemma ownProperty_append (ms : Metrics) (name : string) (m : Metric.t) :
  ownProperty ms name = None -> ownProperty (ms ++ [(name, m)]) name = Some m.
Proof.
  induction ms as [|[k m'] ms IH]; cbn [ownProperty app].
  - now rewrite String.eqb_refl.
  - destruct (String.eqb k name); [discriminate | exact IH].
Qed.

Lemma replaceOwn_keys (ms : Metrics) (name : string) (m : Metric.t) :
  map fst (replaceOwn ms name m) = map fst ms.
Proof.
  induction ms as [|[k m'] ms IH]; cbn [replaceOwn map]; [reflexivity|].
  destruct (String.eqb k name); cbn [map fst]; [reflexivity | now rewrite IH].
Qed.

(** What [add] does with a name that is valid and is not [__proto__]. *)
Lemma add_normal (name : string) (text : option string) (value : option Z) (w : World) :
  nameIsValid name = true -> name <> "__proto__" ->
  exists ms,
    add name text value w =
    (Normal tt,
     {| process := process w;
        this := {| oldSpecification := oldSpecification (this w);
                   initialized := initialized (this w);
                   sendHeaders := sendHeaders (this w);
                   metrics := ms;
                   hooks := hooks (this w) |};
        response := response w |})
    /\ ownProperty ms name =
       Some {| Metric.from := None; Metric.to := None; Metric.description := text;
               Metric.duration := Some (match value with Some d => d | None => 0 end) |}
    /\ In (name, {| Metric.from := None; Metric.to := None; Metric.description := text;
                    Metric.duration :=
                      Some (match value with Some d => d | None => 0 end) |}) ms.
Proof.
  intros Hv Hn. unfold add. rewrite Hv. cbn [negb].
  unfold bind, getThis, setMetrics.
  destruct (ownProperty (metrics (this w)) name) as [m0|] eqn:E.
  - eexists. split; [reflexivity|]. split.
    + apply ownProperty_replaceOwn. congruence.
    + apply replaceOwn_In. congruence.
  - apply String.eqb_neq in Hn. rewrite Hn.
    eexists. split; [reflexivity|]. split.
    + now apply ownProperty_append.
    + apply in_or_app. right. now left.
Qed.

(** C9. [add('__proto__', 'd', 123)]: the name is valid, the call stores no
    metric (the assignment goes to the accessor of [Object.prototype]) and the
    finalization that follows sets no header, so no fragment of that name is
    produced. *)
Theorem proto_metric_is_not_rendered :
  nameIsValid "__proto__" = true
  /\ completionOf (add "__proto__" (Some "d") (Some 123)) (requestWorld modernChrome)
     = PrototypeWrite
  /\ metrics (this (after (add "__proto__" (Some "d") (Some 123))
                          (requestWorld modernChrome))) = []
  /\ headers (response (after addHeaders
                          (after (add "__proto__" (Some "d") (Some 123))
                                 (requestWorld modernChrome)))) = HUndefined
  /\ ~ addThenFinalizeRenders (requestWorld modernChrome) "__proto__" "d".
Proof.
  split; [reflexivity|]. split; [reflexivity|]. split; [reflexivity|].
  split; [reflexivity|].
  intros (Hc & _). vm_compute in Hc. discriminate Hc.
Qed.

Lemma string_append_assoc (a b c : string) :
  ((a ++ b) ++ c = a ++ (b ++ c))%string.
Proof.
  induction a as [|ch a IH]; simpl; [reflexivity | now rewrite IH].
Qed.

Lemma newStyle_both (n d : string) (v : Z) :
  newStyle n (Some d) (Some v)
  = (n ++ ";desc=" ++ quote ++ d ++ quote ++ ";dur=" ++ numberToString v)%string.
Proof.
  unfold newStyle, quote. cbn [append]. now rewrite string_append_assoc.
Qed.

Lemma oldStyle_both (n d : string) (v : Z) :
  oldStyle n (Some d) (Some v)
  = (n ++ "=" ++ numberToString v ++ "; " ++ quote ++ d ++ quote)%string.
Proof.
  reflexivity.
Qed.

(** X2. For every other valid name, without hooks: [add(n, d, 123)] followed by
    the finalization puts the fragment [n;desc="d";dur=123] (current format)
    or [n=123; "d"] (old format) in the header, and the metric that [add]
    stores has no [from] and no [to]. *)
Theorem add_then_finalize :
  forall (w : World) (n d : string),
    nameIsValid n = true -> n <> "__proto__" ->
    headerSent (response w) = false -> hooks (this w) = [] ->
    addThenFinalizeRenders w n d
    /\ ownProperty (metrics (this (after (add n (Some d) (Some 123)) w))) n
       = Some (addedMetric d)
    /\ newStyle n (Some d) (Some 123)
       = (n ++ ";desc=" ++ quote ++ d ++ quote ++ ";dur=123")%string
    /\ oldStyle n (Some d) (Some 123)
       = (n ++ "=123" ++ "; " ++ quote ++ d ++ quote)%string.
Proof.
  intros w n d Hv Hn Hs Hh.
  destruct (add_normal n (Some d) (Some 123) w Hv Hn) as (ms & Ha & Ho & Hin).
  unfold addThenFinalizeRenders, completionOf, after. rewrite Ha. cbn [fst snd].
  split; [|split; [exact Ho | split; [apply newStyle_both | apply oldStyle_both]]].
  split; [reflexivity|].
  set (w' := {| process := process w; this := _; response := response w |}).
  assert (Hu : updatedMetrics (this w') = ms).
  { unfold updatedMetrics, sortedHooks. cbn [this hooks metrics w']. now rewrite Hh. }
  apply Object_entries_In in Hin. rewrite <- Hu in Hin.
  destruct (renderEntries_In (oldSpecification (this w')) (initialized (this w'))
              _ (process w') _ Hin) as (p' & Hp').
  fold (rendered w') in Hp'.
  assert (Hf : fst (renderEntry (oldSpecification (this w')) (initialized (this w')) p'
                      (n, {| Metric.from := None; Metric.to := None;
                             Metric.description := Some d;
                             Metric.duration := Some 123 |}))
               = fragment (oldSpecification (this w)) n (Some d) 123).
  { unfold renderEntry. cbn [fst snd Metric.from Metric.to Metric.description
                              Metric.duration].
    destruct (hrtimeOf p') as [t p'']. cbn [fst].
    now rewrite buildHeader_fragment. }
  rewrite Hf in Hp'.
  destruct (rendered_in_header w' _ Hs Hp') as (Hhd & Hx).
  eexists. split; [exact Hhd | exact Hx].
Qed.

Lemma add_then_finalize_witness :
  nameIsValid "userData" = true /\ "userData" <> "__proto__"
  /\ headerSent (response (requestWorld oldChrome)) = false
  /\ hooks (this (requestWorld oldChrome)) = []
  /\ addThenFinalizeRenders (requestWorld oldChrome) "userData" "user data"
  /\ ownProperty (metrics (this (after (add "userData" (Some "user data") (Some 123))
                                       (requestWorld oldChrome)))) "userData"
     = Some (addedMetric "user data")
  /\ newStyle "userData" (Some "user data") (Some 123)
     = ("userData" ++ ";desc=" ++ quote ++ "user data" ++ quote ++ ";dur=123")%string
  /\ oldStyle "userData" (Some "user data") (Some 123)
     = ("userData" ++ "=123" ++ "; " ++ quote ++ "user data" ++ quote)%string.
Proof.
  split; [reflexivity|]. split; [discriminate|]. split; [reflexivity|].
  split; [reflexivity|].
  apply add_then_finalize; [reflexivity | discriminate | reflexivity | reflexivity].
Defined.

Example add_then_finalize_current_format :
  headers (response (after (add "userData" (Some "user data") (Some 123) ;; addHeaders)
                           (requestWorld modernChrome)))
  = HArray [("userData;desc=" ++ quote ++ "user data" ++ quote ++ ";dur=123")%string].
Proof. reflexivity. Qed.

Example add_then_finalize_old_format :
  headers (response (after (add "userData" (Some "user data") (Some 123) ;; addHeaders)
                           (requestWorld oldChrome)))
  = HArray [("userData=123; " ++ quote ++ "user data" ++ quote)%string].
Proof. reflexivity. Qed.

(** ** The option [sendHeaders] *)

Lemma addHeaders_withSendHeaders (b : bool) (w : World) :
  addHeaders (withSendHeaders b w) =
  (completionOf addHeaders w, withSendHeaders b (after addHeaders w)).
Proof.
  unfold completionOf, after. destruct (headerSent (response w)) eqn:Hs.
  - rewrite (addHeaders_sent w Hs), (addHeaders_sent (withSendHeaders b w) Hs).
    reflexivity.
  - rewrite (addHeaders_not_sent w Hs), (addHeaders_not_sent (withSendHeaders b w) Hs).
    cbn [fst snd]. unfold finalized, withSendHeaders. cbn [this process response
      oldSpecification initialized sendHeaders metrics hooks].
    unfold updatedMetrics, sortedHooks. cbn [hooks metrics].
    destruct (existingValues _ ++ _); reflexivity.
Qed.

(** C10. With [sendHeaders = false] the middleware stores the flag in the
    session and registers no listener (with [true], or without the option, it
    registers the one that calls [addHeaders]).  [addHeaders] never reads the
    flag: its first test is on the method itself, which is always defined.  A
    direct call on a session created with [sendHeaders = false], on a
    response whose headers are not sent, completes and sets the header to the
    fragments it rendered. *)
Theorem addHeaders_ignores_sendHeaders :
  forall (w : World),
    sendHeaders (this w) = false ->
    headerSent (response w) = false ->
    completionOf addHeaders w = Normal tt
    /\ (rendered w <> [] ->
        headers (response (after addHeaders w)) =
        HArray (existingValues (headers (response w)) ++ rendered w))
    /\ hasMethodAddHeaders (this w) = true
    /\ (forall b,
        addHeaders (withSendHeaders b w) =
        (completionOf addHeaders w, withSendHeaders b (after addHeaders w)))
    /\ (forall request res p,
        sendHeaders (this (serverTimingMiddleware (Some false) request res p)) = false
        /\ response (serverTimingMiddleware (Some false) request res p) = res)
    /\ (forall request res p,
        onHeadersListeners (response (serverTimingMiddleware (Some true) request res p))
        = onHeadersListeners res ++ [CallAddHeaders]
        /\ onHeadersListeners (response (serverTimingMiddleware None request res p))
           = onHeadersListeners res ++ [CallAddHeaders]).
Proof.
  intros w _ Hs.
  split; [unfold completionOf; now rewrite (addHeaders_not_sent w Hs)|].
  split.
  { intros Hne. unfold after. rewrite (addHeaders_not_sent w Hs). cbn [snd].
    apply finalized_headers. intros E. apply app_eq_nil in E. now destruct E. }
  split; [reflexivity|].
  split; [intros b; apply addHeaders_withSendHeaders|].
  split; intros request res p; unfold serverTimingMiddleware, constructor;
    destruct (hrtimeOf p); split; reflexivity.
Qed.

Lemma addHeaders_ignores_sendHeaders_witness :
  sendHeaders (this silentWorld) = false
  /\ headerSent (response silentWorld) = false
  /\ completionOf addHeaders silentWorld = Normal tt
  /\ (rendered silentWorld <> [] ->
      headers (response (after addHeaders silentWorld)) =
      HArray (existingValues (headers (response silentWorld)) ++ rendered silentWorld))
  /\ hasMethodAddHeaders (this silentWorld) = true
  /\ (forall b,
      addHeaders (withSendHeaders b silentWorld) =
      (completionOf addHeaders silentWorld,
       withSendHeaders b (after addHeaders silentWorld)))
  /\ (forall request res p,
      sendHeaders (this (serverTimingMiddleware (Some false) request res p)) = false
      /\ response (serverTimingMiddleware (Some false) request res p) = res)
  /\ (forall request res p,
      onHeadersListeners (response (serverTimingMiddleware (Some true) request res p))
      = onHeadersListeners res ++ [CallAddHeaders]
      /\ onHeadersListeners (response (serverTimingMiddleware None request res p))
         = onHeadersListeners res ++ [CallAddHeaders]).
Proof.
  split; [reflexivity|]. split; [reflexivity|].
  apply addHeaders_ignores_sendHeaders; reflexivity.
Defined.

Example direct_call_writes_header :
  sendHeaders (this silentWorld) = false
  /\ onHeadersListeners (response silentWorld) = []
  /\ beforeHeadersAreWritten silentWorld = (Normal tt, silentWorld)
  /\ headers (response (after addHeaders silentWorld))
     = HArray [("db;desc=" ++ quote ++ "query" ++ quote ++ ";dur=5")%string].
Proof. repeat split. Qed.

(** ** The scenarios of the test suite *)

Example measure_between_two_points :
  headers (response (after (from "userData" (Some "user data") ;;
                            to "userData" None ;;
                            addHeaders)
                           (requestWorld modernChrome)))
  = HArray [("userData;desc=" ++ quote ++ "user data" ++ quote ++ ";dur=1000")%string].
Proof. reflexivity. Qed.

Example overwrite_duration_old_format :
  headers (response (after (add "userData" (Some "user data") (Some 123) ;;
                            duration "userData" 234 ;;
                            addHeaders)
                           (requestWorld oldChrome)))
  = HArray [("userData=234; " ++ quote ++ "user data" ++ quote)%string].
Proof. reflexivity. Qed.

Example overwrite_description :
  headers (response (after (add "userData" (Some "bla bla bla") (Some 123) ;;
                            description "userData" "user data" ;;
                            addHeaders)
                           (requestWorld modernChrome)))
  = HArray [("userData;desc=" ++ quote ++ "user data" ++ quote ++ ";dur=123")%string].
Proof. reflexivity. Qed.

Example removed_hook_does_not_run :
  rendered (after (addHook "clear" clearAll None ;;
                   add "render" None (Some 600))
                  (requestWorld modernChrome)) = []
  /\ rendered (after (addHook "clear" clearAll None ;;
                      add "render" None (Some 600) ;;
                      removeHook "clear")
                     (requestWorld modernChrome)) = ["render;dur=600"].
Proof. split; reflexivity. Qed.

(** Names that are array indices are enumerated first, in ascending order. *)
Example entries_order :
  map fst (Object_entries [("db", 1); ("10", 2); ("9", 3); ("007", 4)])
  = ["9"; "10"; "db"; "007"].
Proof. reflexivity. Qed.

(** [from('toString')] finds the method of [Object.prototype] and records no
    metric; a name with a space is refused. *)
Example inherited_and_invalid_names :
  after (from "toString" None) (requestWorld modernChrome)
  = after process_hrtime (requestWorld modernChrome)
  /\ completionOf (from "a b" None) (requestWorld modernChrome) = Throw INVALID_NAME.
Proof. split; reflexivity. Qed.

(** ** Further properties of the recording calls and of the hooks *)

(** X3. [removeHook] removes every hook of that name and no other, keeps the
    order of those that stay, and never throws. *)
Theorem removeHook_removes_all :
  forall (w : World) (name : string),
    completionOf (removeHook name) w = Normal tt
    /\ hooks (this (after (removeHook name) w))
       = filter (fun h => negb (String.eqb (Hook.name h) name)) (hooks (this w))
    /\ (forall h, In h (hooks (this (after (removeHook name) w))) -> Hook.name h <> name)
    /\ (forall h, In h (hooks (this w)) -> Hook.name h <> name ->
                  In h (hooks (this (after (removeHook name) w))))
    /\ metrics (this (after (removeHook name) w)) = metrics (this w).
Proof.
  intros w name. split; [reflexivity|]. split; [reflexivity|].
  split; [|split; [|reflexivity]].
  - intros h Hin. cbn in Hin. apply filter_In in Hin. destruct Hin as (_ & Hn).
    apply negb_true_iff, String.eqb_neq in Hn. exact Hn.
  - intros h Hin Hn. cbn. apply filter_In. split; [exact Hin|].
    apply negb_true_iff, String.eqb_neq. exact Hn.
Qed.

Lemma set_own (name : string) (f : Field) (m : Metric.t) (w : World) :
  nameIsValid name = true -> ownProperty (metrics (this w)) name = Some m ->
  completionOf (set name f) w = Normal tt
  /\ ownProperty (metrics (this (after (set name f) w))) name = Some (assignField m f).
Proof.
  intros Hv Ho. unfold completionOf, after, set. rewrite Hv. cbn [negb].
  unfold bind, getThis, lookupProperty. rewrite Ho. cbn. split; [reflexivity|].
  apply ownProperty_replaceOwn. congruence.
Qed.

(** X4. After [add(n, d1, y)], [description(n, d2)] replaces the description and
    keeps the duration, and [duration(n, x)] replaces the duration and keeps
    the description. *)
Theorem overwrite_after_add :
  forall (w : World) (n d1 d2 : string) (y x : Z),
    nameIsValid n = true -> n <> "__proto__" ->
    ownProperty (metrics (this (after (add n (Some d1) (Some y) ;; description n d2) w))) n
    = Some {| Metric.from := None; Metric.to := None;
              Metric.description := Some d2; Metric.duration := Some y |}
    /\ ownProperty (metrics (this (after (add n (Some d1) (Some y) ;; duration n x) w))) n
       = Some {| Metric.from := None; Metric.to := None;
                 Metric.description := Some d1; Metric.duration := Some x |}.
Proof.
  intros w n d1 d2 y x Hv Hn.
  destruct (add_normal n (Some d1) (Some y) w Hv Hn) as (ms & Ha & Ho & _).
  unfold after, bind. rewrite Ha.
  match goal with |- context [description n d2 ?w'] => set (w1 := w') end.
  split.
  - destruct (set_own n (FieldDescription d2) _ w1 Hv Ho) as (_ & H). exact H.
  - destruct (set_own n (FieldDuration x) _ w1 Hv Ho) as (_ & H). exact H.
Qed.

Lemma overwrite_after_add_witness :
  nameIsValid "userData" = true /\ "userData" <> "__proto__"
  /\ ownProperty (metrics (this (after (add "userData" (Some "bla") (Some 123) ;;
                                        description "userData" "user data")
                                       (requestWorld modernChrome)))) "userData"
     = Some {| Metric.from := None; Metric.to := None;
               Metric.description := Some "user data"; Metric.duration := Some 123 |}
  /\ ownProperty (metrics (this (after (add "userData" (Some "bla") (Some 123) ;;
                                        duration "userData" 234)
                                       (requestWorld modernChrome)))) "userData"
     = Some {| Metric.from := None; Metric.to := None;
               Metric.description := Some "bla"; Metric.duration := Some 234 |}.
Proof.
  split; [reflexivity|]. split; [discriminate|].
  apply overwrite_after_add; [reflexivity | discriminate].
Defined.

(** * Further properties *)

(** ** Names that are refused *)

Lemma perform_invalid (c : RecordingCall) (name : string) (w : World) :
  nameIsValid name = false ->
  completionOf (perform c name) w = Throw INVALID_NAME
  /\ this (after (perform c name) w) = this w
  /\ response (after (perform c name) w) = response w.
Proof.
  intros H. destruct c as [text|text|text|value|text value]; cbn [perform].
  - apply (timestamped_set_invalid name FieldFrom text w H).
  - apply (timestamped_set_invalid name FieldTo text w H).
  - unfold description, completionOf, after. now rewrite set_invalid.
  - unfold duration, completionOf, after. now rewrite set_invalid.
  - unfold completionOf, after. now rewrite add_invalid.
Qed.

Lemma allTokenChars_In (s : string) (ch : ascii) :
  allTokenChars s = true -> In ch (list_ascii_of_string s) -> isTokenChar ch = true.
Proof.
  induction s as [|c s IH]; cbn [allTokenChars list_ascii_of_string]; [intros _ []|].
  intros H [<- | Hin]; apply andb_true_iff in H; destruct H as (Hc & Hs);
    [exact Hc | now apply IH].
Qed.

Lemma isTokenChar_forbidden (ch : ascii) :
  In ch forbiddenChars -> isTokenChar ch = false.
Proof.
  intros H. vm_compute in H.
  repeat (destruct H as [<- | H]; [reflexivity|]). destruct H.
Qed.

Lemma isTokenChar_not_ascii (ch : ascii) :
  (128 <=? N_of_ascii ch)%N = true -> isTokenChar ch = false.
Proof.
  destruct ch as [[] [] [] [] [] [] [] []]; vm_compute; intros H;
    try reflexivity; discriminate H.
Qed.

(** X5. A name that is empty, or holds one of the characters [(),/:;<=>?@[\]{}],
    a double quote, white space, or a character outside ASCII, is refused by
    every recording
    call, which throws and leaves the session and the response as they were. *)
Theorem forbidden_character_rejected :
  forall (c : RecordingCall) (name : string) (w : World),
    (name = EmptyString \/
     exists ch, In ch (list_ascii_of_string name) /\
                (In ch forbiddenChars \/ (128 <=? N_of_ascii ch)%N = true)) ->
    nameIsValid name = false
    /\ completionOf (perform c name) w = Throw INVALID_NAME
    /\ this (after (perform c name) w) = this w
    /\ response (after (perform c name) w) = response w.
Proof.
  intros c name w H.
  assert (Hv : nameIsValid name = false).
  { rewrite nameIsValid_isToken. destruct H as [-> | (ch & Hin & Hbad)]; [reflexivity|].
    destruct (isToken name) eqn:E; [|reflexivity].
    assert (Ht : isTokenChar ch = true).
    { destruct name; [discriminate E|]. apply (allTokenChars_In _ ch E Hin). }
    destruct Hbad as [Hbad | Hbad];
      [apply isTokenChar_forbidden in Hbad | apply isTokenChar_not_ascii in Hbad];
      congruence. }
  split; [exact Hv | now apply perform_invalid].
Qed.

Lemma forbidden_character_rejected_witness :
  ("cache read" = EmptyString \/
   exists ch, In ch (list_ascii_of_string "cache read") /\
              (In ch forbiddenChars \/ (128 <=? N_of_ascii ch)%N = true))
  /\ nameIsValid "cache read" = false
  /\ completionOf (perform (CallAdd (Some "d") (Some 5)) "cache read") hookedWorld
     = Throw INVALID_NAME
  /\ this (after (perform (CallAdd (Some "d") (Some 5)) "cache read") hookedWorld)
     = this hookedWorld
  /\ response (after (perform (CallAdd (Some "d") (Some 5)) "cache read") hookedWorld)
     = response hookedWorld.
Proof.
  assert (H : "cache read" = EmptyString \/
              exists ch, In ch (list_ascii_of_string "cache read") /\
                         (In ch forbiddenChars \/ (128 <=? N_of_ascii ch)%N = true)).
  { right. exists " "%char. split; [| left]; vm_compute; tauto. }
  split; [exact H | exact (forbidden_character_rejected _ _ _ H)].
Defined.

(** ** The name of a fragment *)

Lemma tokenPrefix_append (name tail : string) :
  allTokenChars name = true ->
  tokenPrefix tail = EmptyString ->
  tokenPrefix (name ++ tail) = name.
Proof.
  intros Hn Ht. induction name as [|c name IH]; cbn [append]; [exact Ht|].
  cbn [allTokenChars] in Hn. apply andb_true_iff in Hn. destruct Hn as (Hc & Hn).
  cbn [tokenPrefix]. rewrite Hc. now rewrite IH.
Qed.

(** X6. From a fragment, in either format and whatever fields it has, the name is
    read back as its longest prefix of characters of names: the name of a
    metric cannot run into its fields.  So two metrics whose names differ
    never give the same fragment. *)
Theorem name_read_back_from_fragment :
  forall (name : string) (text : option string) (value : option Z),
    nameIsValid name = true ->
    tokenPrefix (newStyle name text value) = name
    /\ tokenPrefix (oldStyle name text value) = name
    /\ (forall name' text' value',
           nameIsValid name' = true -> name <> name' ->
           newStyle name text value <> newStyle name' text' value'
           /\ oldStyle name text value <> oldStyle name' text' value').
Proof.
  assert (Hnew : forall n t v, nameIsValid n = true ->
                               tokenPrefix (newStyle n t v) = n).
  { intros n t v Hv. rewrite nameIsValid_isToken in Hv.
    assert (Ha : allTokenChars n = true) by (destruct n; [discriminate | exact Hv]).
    unfold newStyle. apply tokenPrefix_append; [exact Ha|].
    destruct t as [d|], v as [z|]; reflexivity. }
  assert (Hold : forall n t v, nameIsValid n = true ->
                               tokenPrefix (oldStyle n t v) = n).
  { intros n t v Hv. rewrite nameIsValid_isToken in Hv.
    assert (Ha : allTokenChars n = true) by (destruct n; [discriminate | exact Hv]).
    unfold oldStyle. apply tokenPrefix_append; [exact Ha|].
    destruct t as [d|], v as [z|]; reflexivity. }
  intros name text value Hv. split; [now apply Hnew|]. split; [now apply Hold|].
  intros name' text' value' Hv' Hne. split; intros E.
  - apply (f_equal tokenPrefix) in E. rewrite !Hnew in E by assumption. congruence.
  - apply (f_equal tokenPrefix) in E. rewrite !Hold in E by assumption. congruence.
Qed.

Lemma name_read_back_from_fragment_witness :
  nameIsValid "db" = true
  /\ tokenPrefix (newStyle "db" (Some "query") (Some 5)) = "db"
  /\ tokenPrefix (oldStyle "db" (Some "query") (Some 5)) = "db"
  /\ (forall name' text' value',
         nameIsValid name' = true -> "db" <> name' ->
         newStyle "db" (Some "query") (Some 5) <> newStyle name' text' value'
         /\ oldStyle "db" (Some "query") (Some 5) <> oldStyle name' text' value').
Proof.
  split; [reflexivity | apply name_read_back_from_fragment; reflexivity].
Defined.

(** ** What a recording call leaves alone *)

Lemma ownProperty_None_iff (ms : Metrics) (name : string) :
  ownProperty ms name = None <-> ~ In name (keys ms).
Proof.
  induction ms as [|[k m] ms IH]; cbn [ownProperty keys map fst In]; [tauto|].
  destruct (String.eqb k name) eqn:E.
  - apply String.eqb_eq in E. split; [discriminate | tauto].
  - apply String.eqb_neq in E. fold (keys ms). rewrite IH. tauto.
Qed.

Lemma ownProperty_replaceOwn_other (ms : Metrics) (name k : string) (m : Metric.t) :
  k <> name -> ownProperty (replaceOwn ms name m) k = ownProperty ms k.
Proof.
  intros Hk. induction ms as [|[k' m'] ms IH]; cbn [replaceOwn ownProperty]; [reflexivity|].
  destruct (String.eqb k' name) eqn:E; cbn [ownProperty].
  - apply String.eqb_eq in E. subst k'.
    replace (String.eqb name k) with false; [reflexivity|].
    symmetry. apply String.eqb_neq. congruence.
  - now rewrite IH.
Qed.

Lemma ownProperty_append_other (ms : Metrics) (name k : string) (m : Metric.t) :
  k <> name -> ownProperty (ms ++ [(name, m)]) k = ownProperty ms k.
Proof.
  intros Hk. induction ms as [|[k' m'] ms IH]; cbn [app ownProperty].
  - replace (String.eqb name k) with false; [reflexivity|].
    symmetry. apply String.eqb_neq. congruence.
  - now rewrite IH.
Qed.

Lemma replaceOwn_twice (ms : Metrics) (name : string) (m m' : Metric.t) :
  replaceOwn (replaceOwn ms name m) name m' = replaceOwn ms name m'.
Proof.
  induction ms as [|[k m0] ms IH]; cbn [replaceOwn]; [reflexivity|].
  destruct (String.eqb k name) eqn:E; cbn [replaceOwn]; rewrite E;
    [reflexivity | now rewrite IH].
Qed.

Lemma replaceOwn_append_fresh (ms : Metrics) (name : string) (m m' : Metric.t) :
  ownProperty ms name = None ->
  replaceOwn (ms ++ [(name, m)]) name m' = ms ++ [(name, m')].
Proof.
  induction ms as [|[k m0] ms IH]; cbn [app ownProperty replaceOwn].
  - now rewrite String.eqb_refl.
  - destruct (String.eqb k name); [discriminate|]. intros H. now rewrite IH.
Qed.

Lemma touches_trans (name : string) (a b c : Metrics) :
  touches name a b -> touches name b c -> touches name a c.
Proof.
  intros [-> | Hab] [-> | Hbc]; [now left | now right | now right |].
  destruct Hab as [(m & Ha & ->) | (m & Hv & Ha & ->)];
    destruct Hbc as [(m' & Hb & ->) | (m' & _ & Hb & ->)].
  - right. left. exists m'. split; [exact Ha | apply replaceOwn_twice].
  - rewrite ownProperty_replaceOwn in Hb by exact Ha. discriminate Hb.
  - right. right. exists m'. repeat split; try assumption.
    now apply replaceOwn_append_fresh.
  - rewrite ownProperty_append in Hb by exact Ha. discriminate Hb.
Qed.

(** The parts of the world that no recording call writes. *)
Lemma recorded_refl (name : string) (w : World) : recorded name w w.
Proof. unfold recorded. repeat split; try lia. now left. Qed.

Lemma set_recorded (name : string) (f : Field) (w : World) :
  recorded name w (after (set name f) w)
  /\ process (after (set name f) w) = process w.
Proof.
  unfold after, set. destruct (nameIsValid name) eqn:Hv; cbn [negb];
    [|split; [apply recorded_refl | reflexivity]].
  unfold bind, getThis, lookupProperty.
  destruct (ownProperty (metrics (this w)) name) as [m|] eqn:Ho.
  - cbn. split; [|reflexivity]. unfold recorded. cbn. repeat split; try lia.
    right. left. eexists. split; [congruence | reflexivity].
  - destruct (isInherited name).
    + destruct (String.eqb name "__proto__");
        (split; [apply recorded_refl | reflexivity]).
    + cbn. split; [|reflexivity]. unfold recorded. cbn. repeat split; try lia.
      right. right. eexists. repeat split; eassumption.
Qed.

Lemma add_recorded (name : string) (text : option string) (value : option Z) (w : World) :
  recorded name w (after (add name text value) w).
Proof.
  unfold after, add. destruct (nameIsValid name) eqn:Hv; cbn [negb];
    [|apply recorded_refl].
  unfold bind, getThis.
  destruct (ownProperty (metrics (this w)) name) as [m|] eqn:Ho.
  - unfold recorded. cbn. repeat split; try lia.
    right. left. eexists. split; [congruence | reflexivity].
  - destruct (String.eqb name "__proto__"); [apply recorded_refl|].
    unfold recorded. cbn. repeat split; try lia.
    right. right. eexists. repeat split; eassumption.
Qed.

Lemma describeIfGiven_recorded (name : string) (text : option string) (w : World) :
  recorded name w (after (describeIfGiven name text) w)
  /\ process (after (describeIfGiven name text) w) = process w.
Proof.
  unfold describeIfGiven. destruct text as [d|]; [destruct (truthyString d)|];
    try (split; [apply recorded_refl | reflexivity]).
  apply set_recorded.
Qed.

Lemma timestamped_set_recorded (name : string) (field : hrtime -> Field)
    (text : option string) (w : World) :
  recorded name w (after (now <- process_hrtime ;; set name (field now) ;;
                          describeIfGiven name text) w).
Proof.
  unfold after, bind, process_hrtime, hrtimeOf.
  set (w1 := {| process := _; this := this w; response := response w |}).
  destruct (set_recorded name (field (readings (process w) (reads (process w)))) w1)
    as (Hs & Hp).
  unfold after in Hs, Hp.
  destruct (set name _ w1) as [c w2]. cbn [snd] in Hs, Hp.
  assert (H2 : recorded name w w2).
  { unfold recorded in *. cbn [this process response w1 readings reads] in *.
    destruct Hs as (Ht & Hh & Ho & Hi & Hsh & Hr & Hrd & Hn).
    rewrite Hp. cbn [readings reads].
    repeat split; try assumption; lia. }
  destruct c as [[]|e|]; cbn [snd]; try exact H2.
  destruct (describeIfGiven_recorded name text w2) as (Hd & Hp').
  unfold after in Hd, Hp'.
  unfold recorded in *.
  destruct H2 as (Ht & Hh & Ho & Hi & Hsh & Hr & Hrd & Hn).
  destruct Hd as (Ht' & Hh' & Ho' & Hi' & Hsh' & Hr' & _ & _).
  rewrite Hp'. repeat split; try congruence; try lia.
  eapply touches_trans; eassumption.
Qed.

Lemma perform_recorded (c : RecordingCall) (name : string) (w : World) :
  recorded name w (after (perform c name) w).
Proof.
  destruct c as [text|text|text|value|text value]; cbn [perform].
  - apply (timestamped_set_recorded name FieldFrom).
  - apply (timestamped_set_recorded name FieldTo).
  - apply set_recorded.
  - apply set_recorded.
  - apply add_recorded.
Qed.

Lemma touches_keys (name : string) (ms ms' : Metrics) :
  touches name ms ms' -> keys ms' = keys ms \/ keys ms' = keys ms ++ [name].
Proof.
  intros [-> | [(m & _ & ->) | (m & _ & _ & ->)]].
  - now left.
  - left. apply replaceOwn_keys.
  - right. unfold keys. now rewrite map_app.
Qed.

Lemma touches_other (name k : string) (ms ms' : Metrics) :
  touches name ms ms' -> k <> name -> ownProperty ms' k = ownProperty ms k.
Proof.
  intros [-> | [(m & _ & ->) | (m & _ & _ & ->)]] Hk.
  - reflexivity.
  - now apply ownProperty_replaceOwn_other.
  - now apply ownProperty_append_other.
Qed.

Lemma touches_wellFormed (name : string) (ms ms' : Metrics) :
  touches name ms ms' -> wellFormed ms -> wellFormed ms'.
Proof.
  intros [-> | [(m & _ & ->) | (m & Hv & Ho & ->)]] (Hn & Hf); [now split| |].
  - unfold wellFormed. now rewrite replaceOwn_keys.
  - unfold wellFormed, keys. rewrite map_app. cbn [map fst]. split.
    + apply NoDup_app_remove_l with (l := []). cbn [app].
      apply Permutation_NoDup with (l := name :: map fst ms).
      * apply Permutation_cons_append.
      * constructor; [now apply ownProperty_None_iff | exact Hn].
    + apply Forall_app. split; [exact Hf | now repeat constructor].
Qed.

Lemma set_returns (name : string) (f : Field) (w : World) :
  nameIsValid name = true -> name <> "__proto__" ->
  exists w', set name f w = (Normal tt, w').
Proof.
  intros Hv Hn. apply String.eqb_neq in Hn. unfold set. rewrite Hv. cbn [negb].
  unfold bind, getThis, setMetrics, ret.
  destruct (lookupProperty (metrics (this w)) name); [| rewrite Hn |];
    eexists; reflexivity.
Qed.

Lemma describeIfGiven_returns (name : string) (text : option string) (w : World) :
  nameIsValid name = true -> name <> "__proto__" ->
  exists w', describeIfGiven name text w = (Normal tt, w').
Proof.
  intros Hv Hn. unfold describeIfGiven, description.
  destruct text as [d|]; [destruct (truthyString d)|];
    try (eexists; reflexivity). now apply set_returns.
Qed.

Lemma perform_returns (c : RecordingCall) (name : string) (w : World) :
  nameIsValid name = true -> name <> "__proto__" ->
  completionOf (perform c name) w = Normal tt.
Proof.
  intros Hv Hn. unfold completionOf.
  destruct c as [text|text|text|value|text value]; cbn [perform].
  - unfold from, bind, process_hrtime. destruct (hrtimeOf (process w)) as [t p].
    destruct (set_returns name (FieldFrom t)
                {| process := p; this := this w; response := response w |} Hv Hn)
      as (w1 & ->).
    now destruct (describeIfGiven_returns name text w1 Hv Hn) as (w2 & ->).
  - unfold to, bind, process_hrtime. destruct (hrtimeOf (process w)) as [t p].
    destruct (set_returns name (FieldTo t)
                {| process := p; this := this w; response := response w |} Hv Hn)
      as (w1 & ->).
    now destruct (describeIfGiven_returns name text w1 Hv Hn) as (w2 & ->).
  - unfold description. now destruct (set_returns name (FieldDescription text) w Hv Hn)
      as (w1 & ->).
  - unfold duration. now destruct (set_returns name (FieldDuration value) w Hv Hn)
      as (w1 & ->).
  - destruct (add_normal name text value w Hv Hn) as (ms & -> & _). reflexivity.
Qed.

(** X7. A recording call with a name other than [__proto__] returns, or throws
    the error of an invalid name, and changes at most the metric of its name:
    the metrics of the other names keep their values, no metric is removed or
    moved (a new name goes to the end), and the hooks, the flags of the
    session and the response stay as they were; the clock is read at most
    once. *)
Theorem recording_touches_one_metric :
  forall (c : RecordingCall) (name : string) (w : World),
    name <> "__proto__" ->
    (completionOf (perform c name) w = Normal tt
     \/ completionOf (perform c name) w = Throw INVALID_NAME)
    /\ (forall k, k <> name ->
               ownProperty (metrics (this (after (perform c name) w))) k
               = ownProperty (metrics (this w)) k)
    /\ (keys (metrics (this (after (perform c name) w))) = keys (metrics (this w))
        \/ keys (metrics (this (after (perform c name) w)))
           = keys (metrics (this w)) ++ [name])
    /\ hooks (this (after (perform c name) w)) = hooks (this w)
    /\ oldSpecification (this (after (perform c name) w)) = oldSpecification (this w)
    /\ initialized (this (after (perform c name) w)) = initialized (this w)
    /\ sendHeaders (this (after (perform c name) w)) = sendHeaders (this w)
    /\ response (after (perform c name) w) = response w
    /\ (reads (process w) <= reads (process (after (perform c name) w))
        <= reads (process w) + 1)%nat.
Proof.
  intros c name w Hp.
  destruct (perform_recorded c name w) as (Ht & Hh & Ho & Hi & Hs & Hr & _ & Hn).
  split.
  { destruct (nameIsValid name) eqn:Hv.
    - left. now apply perform_returns.
    - right. now apply perform_invalid. }
  split; [intros k Hk; now apply (touches_other name)|].
  split; [now apply touches_keys|]. now repeat split.
Qed.

Lemma recording_touches_one_metric_witness :
  "cache" <> "__proto__"
  /\ completionOf (perform (CallDuration 5) "cache") silentWorld = Normal tt
  /\ ownProperty (metrics (this (after (perform (CallDuration 5) "cache") silentWorld)))
       "db"
     = ownProperty (metrics (this silentWorld)) "db"
  /\ keys (metrics (this (after (perform (CallDuration 5) "cache") silentWorld)))
     = keys (metrics (this silentWorld)) ++ ["cache"]
  /\ response (after (perform (CallDuration 5) "cache") silentWorld)
     = response silentWorld.
Proof.
  assert (H : "cache" <> "__proto__") by discriminate.
  destruct (recording_touches_one_metric (CallDuration 5) "cache" silentWorld H)
    as (Hc & Ho & Hk & _ & _ & _ & _ & Hr & _).
  split; [exact H|]. split; [|split; [|split; [|exact Hr]]].
  - destruct Hc as [Hc | Hc]; [exact Hc|]. vm_compute in Hc. discriminate Hc.
  - apply Ho. discriminate.
  - destruct Hk as [Hk | Hk]; [|exact Hk]. vm_compute in Hk. discriminate Hk.
Defined.

(** X8. The recording calls keep the metrics well formed: no name twice, and
    every name a valid one, however the call completes. *)
Theorem recording_keeps_metrics_well_formed :
  forall (c : RecordingCall) (name : string) (w : World),
    wellFormed (metrics (this w)) ->
    wellFormed (metrics (this (after (perform c name) w))).
Proof.
  intros c name w. apply (touches_wellFormed name).
  apply perform_recorded.
Qed.

Lemma recording_keeps_metrics_well_formed_witness :
  wellFormed (metrics (this silentWorld))
  /\ wellFormed (metrics (this (after (perform (CallFrom (Some "render")) "ssr")
                                      silentWorld))).
Proof.
  assert (H : wellFormed (metrics (this silentWorld))).
  { assert (E : keys (metrics (this silentWorld)) = ["db"]) by (vm_compute; reflexivity).
    unfold wellFormed. rewrite E. split.
    - constructor; [intros [] | constructor].
    - constructor; [reflexivity | constructor]. }
  split; [exact H | exact (recording_keeps_metrics_well_formed _ _ _ H)].
Defined.

(** ** [from] and [to] *)

Lemma set_not_inherited (name : string) (f : Field) (w : World) :
  nameIsValid name = true -> isInherited name = false ->
  completionOf (set name f) w = Normal tt
  /\ ownProperty (metrics (this (after (set name f) w))) name
     = Some (assignField (metricOrEmpty (metrics (this w)) name) f)
  /\ process (after (set name f) w) = process w.
Proof.
  intros Hv Hi. unfold completionOf, after, set, metricOrEmpty. rewrite Hv. cbn [negb].
  unfold bind, getThis, lookupProperty.
  destruct (ownProperty (metrics (this w)) name) as [m|] eqn:Ho.
  - cbn. repeat split. apply ownProperty_replaceOwn. congruence.
  - rewrite Hi. cbn. repeat split. now apply ownProperty_append.
Qed.

Lemma describeIfGiven_own (name : string) (text : option string) (m : Metric.t)
    (w : World) :
  nameIsValid name = true -> ownProperty (metrics (this w)) name = Some m ->
  completionOf (describeIfGiven name text) w = Normal tt
  /\ ownProperty (metrics (this (after (describeIfGiven name text) w))) name
     = Some (describedBy text m)
  /\ process (after (describeIfGiven name text) w) = process w.
Proof.
  intros Hv Ho. unfold describeIfGiven, describedBy.
  destruct text as [d|]; [destruct (truthyString d)|]; try now repeat split.
  destruct (set_own name (FieldDescription d) m w Hv Ho) as (Hc & Hm).
  destruct (set_recorded name (FieldDescription d) w) as (_ & Hp).
  now repeat split.
Qed.

Lemma timestamped_set_own (name : string) (field : hrtime -> Field)
    (text : option string) (w : World) :
  nameIsValid name = true -> isInherited name = false ->
  completionOf (now <- process_hrtime ;; set name (field now) ;;
                describeIfGiven name text) w = Normal tt
  /\ ownProperty (metrics (this (after (now <- process_hrtime ;; set name (field now) ;;
                                        describeIfGiven name text) w))) name
     = Some (describedBy text
               (assignField (metricOrEmpty (metrics (this w)) name)
                            (field (nextReading w))))
  /\ reads (process (after (now <- process_hrtime ;; set name (field now) ;;
                            describeIfGiven name text) w)) = S (reads (process w))
  /\ readings (process (after (now <- process_hrtime ;; set name (field now) ;;
                               describeIfGiven name text) w)) = readings (process w).
Proof.
  intros Hv Hi. unfold completionOf, after, bind, process_hrtime, hrtimeOf, nextReading.
  set (w1 := {| process := _; this := this w; response := response w |}).
  destruct (set_not_inherited name (field (readings (process w) (reads (process w))))
              w1 Hv Hi) as (Hc & Hm & Hp).
  unfold completionOf, after in Hc, Hm, Hp.
  destruct (set name _ w1) as [c w2]. cbn [fst snd] in Hc, Hm, Hp. subst c.
  destruct (describeIfGiven_own name text _ w2 Hv Hm) as (Hc' & Hm' & Hp').
  unfold completionOf, after in Hc', Hm', Hp'.
  destruct (describeIfGiven name text w2) as [c' w3]. cbn [fst snd] in *. subst c'.
  rewrite Hp', Hp. cbn [this metrics w1 process reads readings] in *.
  now repeat split.
Qed.

(** X9. For a valid name that [Object.prototype] does not define, [from] and [to]
    complete normally and read the clock once.  The metric of the name (a new
    one when there was none) gets the reading as its [from], respectively its
    [to], and keeps its other fields; a description is stored only when it
    is given and not empty. *)
Theorem from_and_to_record_the_clock :
  forall (w : World) (name : string) (text : option string),
    nameIsValid name = true -> isInherited name = false ->
    (completionOf (from name text) w = Normal tt
     /\ ownProperty (metrics (this (after (from name text) w))) name
        = Some (startedMetric w name text)
     /\ reads (process (after (from name text) w)) = S (reads (process w)))
    /\ (completionOf (to name text) w = Normal tt
        /\ ownProperty (metrics (this (after (to name text) w))) name
           = Some (endedMetric w name text)
        /\ reads (process (after (to name text) w)) = S (reads (process w)))
    /\ Metric.from (startedMetric w name text) = Some (nextReading w)
    /\ Metric.to (startedMetric w name text)
       = Metric.to (metricOrEmpty (metrics (this w)) name)
    /\ Metric.duration (startedMetric w name text)
       = Metric.duration (metricOrEmpty (metrics (this w)) name)
    /\ Metric.to (endedMetric w name text) = Some (nextReading w)
    /\ Metric.from (endedMetric w name text)
       = Metric.from (metricOrEmpty (metrics (this w)) name)
    /\ Metric.duration (endedMetric w name text)
       = Metric.duration (metricOrEmpty (metrics (this w)) name).
Proof.
  intros w name text Hv Hi.
  destruct (timestamped_set_own name FieldFrom text w Hv Hi) as (H1 & H2 & H3 & _).
  destruct (timestamped_set_own name FieldTo text w Hv Hi) as (H4 & H5 & H6 & _).
  split; [now repeat split|]. split; [now repeat split|].
  unfold startedMetric, endedMetric, describedBy.
  destruct text as [d|]; [destruct (truthyString d)|]; now repeat split.
Qed.

Lemma from_and_to_record_the_clock_witness :
  nameIsValid "db" = true /\ isInherited "db" = false
  /\ (completionOf (from "db" (Some "lookup")) silentWorld = Normal tt
      /\ ownProperty (metrics (this (after (from "db" (Some "lookup")) silentWorld))) "db"
         = Some (startedMetric silentWorld "db" (Some "lookup"))
      /\ reads (process (after (from "db" (Some "lookup")) silentWorld))
         = S (reads (process silentWorld)))
  /\ (completionOf (to "db" (Some "lookup")) silentWorld = Normal tt
      /\ ownProperty (metrics (this (after (to "db" (Some "lookup")) silentWorld))) "db"
         = Some (endedMetric silentWorld "db" (Some "lookup"))
      /\ reads (process (after (to "db" (Some "lookup")) silentWorld))
         = S (reads (process silentWorld)))
  /\ Metric.from (startedMetric silentWorld "db" (Some "lookup"))
     = Some (nextReading silentWorld)
  /\ Metric.to (startedMetric silentWorld "db" (Some "lookup"))
     = Metric.to (metricOrEmpty (metrics (this silentWorld)) "db")
  /\ Metric.duration (startedMetric silentWorld "db" (Some "lookup"))
     = Metric.duration (metricOrEmpty (metrics (this silentWorld)) "db")
  /\ Metric.to (endedMetric silentWorld "db" (Some "lookup"))
     = Some (nextReading silentWorld)
  /\ Metric.from (endedMetric silentWorld "db" (Some "lookup"))
     = Metric.from (metricOrEmpty (metrics (this silentWorld)) "db")
  /\ Metric.duration (endedMetric silentWorld "db" (Some "lookup"))
     = Metric.duration (metricOrEmpty (metrics (this silentWorld)) "db").
Proof.
  split; [reflexivity|]. split; [reflexivity|].
  apply from_and_to_record_the_clock; reflexivity.
Defined.

(** ** Durations *)


(** X11. For two readings of the clock below [2^34] ms (some 198 days) of
    which the first is not later than the second, in either order of the
    arguments, the duration is the difference of the two times in whole
    milliseconds, and differs from the time elapsed by less than a
    millisecond.  The bound is needed: between [[17179870, 999999999]] and
    [[17179871, 0]], one nanosecond apart and on either side of a whole
    millisecond, the first of which rounds up, the duration is 0. *)
Theorem duration_within_a_millisecond :
  forall (a b : hrtime),
    isReading a -> isReading b -> nanoseconds a <= nanoseconds b ->
    nanoseconds b < 2 ^ 34 * 1000000 ->
    calculateDuration a b = toMilliseconds b - toMilliseconds a
    /\ calculateDuration b a = toMilliseconds b - toMilliseconds a
    /\ toMilliseconds a <= toMilliseconds b
    /\ Z.abs (calculateDuration a b * 1000000 - (nanoseconds b - nanoseconds a))
       < 1000000
    /\ calculateDuration (17179870, 999999999) (17179871, 0) = 0.
Proof.
  intros a b Ha Hb Hab Hlt.
  assert (Hna : 0 <= nanoseconds a)
    by (destruct a; unfold isReading, nanoseconds in *; cbn [fst snd] in *; lia).
  unfold calculateDuration at 1 2 3. cbv zeta.
  rewrite (toMilliseconds_reading a Ha ltac:(lia)), (toMilliseconds_reading b Hb Hlt).
  pose proof (Z.div_mod (nanoseconds a) 1000000 ltac:(lia)) as Da.
  pose proof (Z.div_mod (nanoseconds b) 1000000 ltac:(lia)) as Db.
  pose proof (Z.mod_pos_bound (nanoseconds a) 1000000 ltac:(lia)) as Ma.
  pose proof (Z.mod_pos_bound (nanoseconds b) 1000000 ltac:(lia)) as Mb.
  assert (Hle : nanoseconds a / 1000000 <= nanoseconds b / 1000000)
    by (apply Z.div_le_mono; lia).
  split; [lia|]. split; [lia|]. split; [lia|]. split; [lia|].
  vm_compute. reflexivity.
Qed.

Lemma duration_within_a_millisecond_witness :
  isReading (1, 999999999) /\ isReading (2, 1)
  /\ nanoseconds (1, 999999999) <= nanoseconds (2, 1)
  /\ nanoseconds (2, 1) < 2 ^ 34 * 1000000
  /\ calculateDuration (1, 999999999) (2, 1)
     = toMilliseconds (2, 1) - toMilliseconds (1, 999999999)
  /\ calculateDuration (2, 1) (1, 999999999)
     = toMilliseconds (2, 1) - toMilliseconds (1, 999999999)
  /\ toMilliseconds (1, 999999999) <= toMilliseconds (2, 1)
  /\ Z.abs (calculateDuration (1, 999999999) (2, 1) * 1000000
            - (nanoseconds (2, 1) - nanoseconds (1, 999999999))) < 1000000
  /\ calculateDuration (17179870, 999999999) (17179871, 0) = 0.
Proof.
  assert (Ha : isReading (1, 999999999)) by (unfold isReading; cbn; lia).
  assert (Hb : isReading (2, 1)) by (unfold isReading; cbn; lia).
  assert (Hab : nanoseconds (1, 999999999) <= nanoseconds (2, 1))
    by (unfold nanoseconds; cbn; lia).
  assert (Hlt : nanoseconds (2, 1) < 2 ^ 34 * 1000000)
    by (unfold nanoseconds; cbn; lia).
  split; [exact Ha|]. split; [exact Hb|]. split; [exact Hab|]. split; [exact Hlt|].
  exact (duration_within_a_millisecond _ _ Ha Hb Hab Hlt).
Defined.

(** ** [calculateDurationSmart] *)

(** X12. [calculateDurationSmart] always completes, changes neither the session
    nor the response, and reads the clock exactly when the metric has no
    [to].  It returns the duration of the metric when that is defined and not
    0, and otherwise the distance between [from] (or the time of
    initialization) and [to] (or the reading), which is not negative. *)
Theorem calculateDurationSmart_reads_only :
  forall (metric : Metric.t) (w : World),
    completionOf (calculateDurationSmart metric) w
    = Normal (orElse (Metric.duration metric)
                (calculateDuration (startOf (this w) metric)
                                   (endOf (nextReading w) metric)))
    /\ this (after (calculateDurationSmart metric) w) = this w
    /\ response (after (calculateDurationSmart metric) w) = response w
    /\ readings (process (after (calculateDurationSmart metric) w))
       = readings (process w)
    /\ reads (process (after (calculateDurationSmart metric) w))
       = (reads (process w) + match Metric.to metric with Some _ => 0 | None => 1 end)%nat
    /\ (Metric.duration metric = None \/ Metric.duration metric = Some 0 ->
        completionOf (calculateDurationSmart metric) w
        = Normal (Z.abs (toMilliseconds (endOf (nextReading w) metric)
                         - toMilliseconds (startOf (this w) metric)))).
Proof.
  intros metric w.
  unfold completionOf, after, calculateDurationSmart, bind, getThis, ret,
    process_hrtime, hrtimeOf, startOf, endOf, nextReading.
  destruct (Metric.to metric) as [t|]; cbn [fst snd this response process readings reads];
    (repeat split; try lia;
     try (intros [-> | ->]; reflexivity); try now destruct w as [[] ? ?]).
Qed.

(** ** The values of the header *)

Lemma Object_entries_no_index {V : Type} (o : list (string * V)) :
  (forall e, In e o -> isArrayIndex (fst e) = false) -> Object_entries o = o.
Proof.
  intros H. unfold Object_entries.
  assert (H1 : filter (fun e => isArrayIndex (fst e)) o = []).
  { induction o as [|e o IH]; [reflexivity|]. cbn [filter].
    rewrite (H e) by now left. apply IH. intros e' He'. apply H. now right. }
  assert (H2 : filter (fun e => negb (isArrayIndex (fst e))) o = o).
  { induction o as [|e o IH]; [reflexivity|]. cbn [filter].
    rewrite (H e) by now left. cbn [negb]. f_equal.
    apply IH; [intros e' He'; apply H; now right|].
    clear - H. induction o as [|e' o IH]; [reflexivity|]. cbn [filter].
    rewrite (H e') by (right; now left). apply IH.
    intros e'' [<- | He'']; apply H; [now left | right; now right]. }
  now rewrite H1, H2.
Qed.

Lemma Object_entries_index_first (o : Metrics) (a b : string * Metric.t) :
  In a o -> In b o ->
  isArrayIndex (fst a) = true ->
  (isArrayIndex (fst b) = false
   \/ (isArrayIndex (fst b) = true /\ indexOfKey a < indexOfKey b)) ->
  exists l1 l2 l3, Object_entries o = l1 ++ a :: l2 ++ b :: l3.
Proof.
  intros Ha Hb Hia Hib. unfold Object_entries.
  change (fun a0 b0 : string * Metric.t => indexOfKey a0 - indexOfKey b0)
    with (compareByKey (@indexOfKey Metric.t)).
  assert (Hfa : In a (filter (fun e => isArrayIndex (fst e)) o))
    by (apply filter_In; now split).
  destruct Hib as [Hib | (Hib & Hlt)].
  - assert (Hfb : In b (filter (fun e => negb (isArrayIndex (fst e))) o))
      by (apply filter_In; split; [exact Hb | now rewrite Hib]).
    apply (Permutation_in _ (Permutation_sym (Array_sort_Permutation indexOfKey _)))
      in Hfa.
    destruct (in_split _ _ Hfa) as (l1 & l2 & E).
    destruct (in_split _ _ Hfb) as (l3 & l4 & E').
    exists l1, (l2 ++ l3), l4.
    rewrite E, E'. rewrite <- !app_assoc. reflexivity.
  - assert (Hfb : In b (filter (fun e => isArrayIndex (fst e)) o))
      by (apply filter_In; now split).
    destruct (Array_sort_smaller_first indexOfKey _ a b Hfa Hfb Hlt)
      as (l1 & l2 & l3 & E).
    exists l1, l2, (l3 ++ filter (fun e => negb (isArrayIndex (fst e))) o).
    rewrite E. rewrite <- !app_assoc. cbn [app]. rewrite <- app_assoc. reflexivity.
Qed.

Lemma renderEntry_clock (old : bool) (init : hrtime) (p : Process)
    (e : string * Metric.t) :
  readings (snd (renderEntry old init p e)) = readings p
  /\ reads (snd (renderEntry old init p e))
     = (reads p + if isOpen e then 1 else 0)%nat.
Proof.
  unfold renderEntry, isOpen. destruct (Metric.to (snd e)); cbn; split; lia || reflexivity.
Qed.

Lemma renderEntries_clock (old : bool) (init : hrtime) (l : list (string * Metric.t))
    (p : Process) :
  readings (snd (renderEntries old init p l)) = readings p
  /\ reads (snd (renderEntries old init p l)) = (reads p + length (filter isOpen l))%nat.
Proof.
  revert p. induction l as [|e l IH]; intros p; cbn [renderEntries filter].
  - cbn. split; [reflexivity | lia].
  - destruct (renderEntry_clock old init p e) as (H1 & H2).
    destruct (renderEntry old init p e) as [x p1].
    destruct (IH p1) as (H3 & H4).
    destruct (renderEntries old init p1 l) as [xs p2]. cbn [fst snd] in *.
    split; [congruence|]. rewrite H4, H2. destruct (isOpen e); cbn [length]; lia.
Qed.

Lemma process_eq (p q : Process) :
  readings p = readings q -> reads p = reads q -> p = q.
Proof. destruct p, q. cbn. now intros -> ->. Qed.

Lemma renderEntries_advance (old : bool) (init : hrtime) (l : list (string * Metric.t))
    (p : Process) :
  snd (renderEntries old init p l) = advance p (length (filter isOpen l)).
Proof.
  destruct (renderEntries_clock old init l p) as (H1 & H2).
  now apply process_eq.
Qed.

Lemma renderEntries_nth (old : bool) (init : hrtime)
    (before : list (string * Metric.t)) (e : string * Metric.t)
    (rest : list (string * Metric.t)) (p : Process) :
  nth_error (fst (renderEntries old init p (before ++ e :: rest))) (length before)
  = Some (fst (renderEntry old init (advance p (length (filter isOpen before))) e)).
Proof.
  revert p. induction before as [|e' before IH]; intros p.
  - cbn [app length filter renderEntries].
    replace (advance p 0) with p by (apply process_eq; cbn; lia || reflexivity).
    destruct (renderEntry old init p e) as [x p1].
    now destruct (renderEntries old init p1 rest).
  - cbn [app length renderEntries].
    destruct (renderEntry_clock old init p e') as (H1 & H2).
    destruct (renderEntry old init p e') as [x p1]. cbn [snd] in H1, H2.
    specialize (IH p1).
    destruct (renderEntries old init p1 (before ++ e :: rest)) as [xs p2].
    cbn [fst nth_error] in *. rewrite IH. do 3 f_equal.
    apply process_eq; cbn [advance readings reads filter]; [exact H1|].
    rewrite H2. destruct (isOpen e'); cbn [length]; lia.
Qed.

(** The place and the value of every fragment that a finalization renders. *)
Lemma rendered_nth (w : World) (before : list (string * Metric.t))
    (e : string * Metric.t) (rest : list (string * Metric.t)) :
  Object_entries (updatedMetrics (this w)) = before ++ e :: rest ->
  nth_error (rendered w) (length before) = Some (fragmentAfter w before e).
Proof.
  intros E. unfold rendered. rewrite E, renderEntries_nth. f_equal.
  unfold renderEntry, fragmentAfter, startOf, endOf, advance.
  now destruct (Metric.to (snd e)).
Qed.

(** X13. On a response whose header is not an array of values, a finalization of
    metrics that are not empty sets the header to one fragment per metric, in
    the order of [Object.entries]: the value at the place of a metric is its
    fragment, which starts at [from] or at the time of initialization and
    ends at [to] or at the reading that the metric takes from the clock, the
    next one after those taken by the metrics before it.  When no name is an
    array index the order is that in which the metrics were created. *)
Theorem one_value_per_metric :
  forall (w : World),
    headerSent (response w) = false ->
    existingValues (headers (response w)) = [] ->
    updatedMetrics (this w) <> [] ->
    exists values,
      headers (response (after addHeaders w)) = HArray values
      /\ length values = length (updatedMetrics (this w))
      /\ (forall before e rest,
             Object_entries (updatedMetrics (this w)) = before ++ e :: rest ->
             nth_error values (length before) = Some (fragmentAfter w before e))
      /\ ((forall e, In e (updatedMetrics (this w)) -> isArrayIndex (fst e) = false) ->
          Object_entries (updatedMetrics (this w)) = updatedMetrics (this w)).
Proof.
  intros w Hs He Hne. exists (rendered w).
  assert (Hlen : length (rendered w) = length (updatedMetrics (this w))).
  { unfold rendered. rewrite renderEntries_length.
    apply Permutation_length, Object_entries_Permutation. }
  split; [|split; [exact Hlen | split]].
  - unfold after. rewrite (addHeaders_not_sent w Hs). cbn [snd].
    rewrite finalized_headers; rewrite He; cbn [app]; [reflexivity|].
    intros E. rewrite E in Hlen. destruct (updatedMetrics (this w)); [congruence|].
    discriminate Hlen.
  - intros before e rest. apply rendered_nth.
  - apply Object_entries_no_index.
Qed.

Lemma one_value_per_metric_witness :
  (headerSent (response threeMetricsWorld) = false
   /\ existingValues (headers (response threeMetricsWorld)) = []
   /\ updatedMetrics (this threeMetricsWorld) <> [])
  /\ exists values,
      headers (response (after addHeaders threeMetricsWorld)) = HArray values
      /\ length values = 3%nat
      /\ nth_error values 1 = Some (newStyle "10" None (Some 2000)).
Proof.
  split; [split; [reflexivity | split; [reflexivity | discriminate]]|].
  destruct (one_value_per_metric threeMetricsWorld eq_refl eq_refl ltac:(discriminate))
    as (values & Hh & Hlen & Hn & _).
  exists values. split; [exact Hh|]. split; [exact Hlen|].
  exact (Hn [("9", metricNine)] ("10", metricTen) [("db", metricDb)] eq_refl).
Defined.

(** X14. In the header, the fragment of a metric whose name is an array index
    comes before the fragment of every metric whose name is not one, and
    before that of every metric whose name is a larger array index, whatever
    the order in which the metrics were created: the fragments are in the
    order of [Object.entries], not in that of the recording. *)
Theorem array_index_names_come_first :
  forall (w : World) (a b : string * Metric.t),
    headerSent (response w) = false ->
    In a (updatedMetrics (this w)) -> In b (updatedMetrics (this w)) ->
    isArrayIndex (fst a) = true ->
    (isArrayIndex (fst b) = false
     \/ (isArrayIndex (fst b) = true /\ indexOfKey a < indexOfKey b)) ->
    exists before between rest values,
      Object_entries (updatedMetrics (this w)) = before ++ a :: between ++ b :: rest
      /\ headers (response (after addHeaders w))
         = HArray (existingValues (headers (response w)) ++ values)
      /\ nth_error values (length before) = Some (fragmentAfter w before a)
      /\ nth_error values (length before + 1 + length between)
         = Some (fragmentAfter w (before ++ a :: between) b).
Proof.
  intros w a b Hs Ha Hb Hia Hib.
  destruct (Object_entries_index_first _ a b Ha Hb Hia Hib)
    as (before & between & rest & E).
  exists before, between, rest, (rendered w).
  pose proof (rendered_nth w before a (between ++ b :: rest) E) as Na.
  assert (E' : Object_entries (updatedMetrics (this w))
               = (before ++ a :: between) ++ b :: rest)
    by (rewrite E, <- app_assoc; reflexivity).
  pose proof (rendered_nth w _ b rest E') as Nb.
  rewrite length_app in Nb. cbn [length] in Nb.
  replace (length before + S (length between))%nat
    with (length before + 1 + length between)%nat in Nb by lia.
  split; [exact E|]. split; [|split; [exact Na | exact Nb]].
  apply nth_error_In in Na.
  apply (rendered_in_header w _ Hs Na).
Qed.

Lemma array_index_names_come_first_witness :
  (In ("9", metricNine) (updatedMetrics (this threeMetricsWorld))
   /\ In ("db", metricDb) (updatedMetrics (this threeMetricsWorld))
   /\ isArrayIndex "9" = true /\ isArrayIndex "db" = false)
  /\ keys (metrics (this threeMetricsWorld)) = ["db"; "10"; "9"]
  /\ exists before between rest values,
      Object_entries (updatedMetrics (this threeMetricsWorld))
      = before ++ ("9", metricNine) :: between ++ ("db", metricDb) :: rest
      /\ headers (response (after addHeaders threeMetricsWorld))
         = HArray (existingValues (headers (response threeMetricsWorld)) ++ values)
      /\ nth_error values (length before)
         = Some (fragmentAfter threeMetricsWorld before ("9", metricNine))
      /\ nth_error values (length before + 1 + length between)
         = Some (fragmentAfter threeMetricsWorld
                   (before ++ ("9", metricNine) :: between) ("db", metricDb)).
Proof.
  assert (Ha : In ("9", metricNine) (updatedMetrics (this threeMetricsWorld)))
    by (right; right; left; reflexivity).
  assert (Hb : In ("db", metricDb) (updatedMetrics (this threeMetricsWorld)))
    by (left; reflexivity).
  split; [split; [exact Ha | split; [exact Hb | split; reflexivity]]|].
  split; [vm_compute; reflexivity|].
  apply (array_index_names_come_first threeMetricsWorld _ _ eq_refl Ha Hb eq_refl).
  left. reflexivity.
Defined.

(** ** Hooks that are added and removed *)

Lemma filter_all {A : Type} (f : A -> bool) (l : list A) :
  (forall x, In x l -> f x = true) -> filter f l = l.
Proof.
  induction l as [|x l IH]; intros H; [reflexivity|]. cbn [filter].
  rewrite (H x) by now left. f_equal. apply IH. intros y Hy. apply H. now right.
Qed.

Lemma filter_idempotent {A : Type} (f : A -> bool) (l : list A) :
  filter f (filter f l) = filter f l.
Proof.
  apply filter_all. intros x Hx. now apply filter_In in Hx.
Qed.

(** X15. When no hook has the name, adding a hook of that name and removing it
    again gives back the session as it was; removing a name twice is the same
    as removing it once. *)
Theorem addHook_removeHook_round_trip :
  forall (w : World) (name : string) (cb : Metrics -> Metrics) (i : option Z),
    (forall h, In h (hooks (this w)) -> Hook.name h <> name) ->
    after (addHook name cb i ;; removeHook name) w = w
    /\ after (removeHook name) w = w
    /\ (forall w', after (removeHook name ;; removeHook name) w'
                   = after (removeHook name) w').
Proof.
  intros w name cb i Hn.
  assert (Hf : filter (fun h => negb (String.eqb (Hook.name h) name)) (hooks (this w))
               = hooks (this w)).
  { apply filter_all. intros h Hh. apply negb_true_iff, String.eqb_neq. now apply Hn. }
  split; [|split].
  - unfold after, bind, addHook, removeHook, getThis, setHooks, bind. cbn.
    rewrite filter_app, Hf. cbn. rewrite String.eqb_refl. cbn. rewrite app_nil_r.
    now destruct w as [p [] r].
  - unfold after, removeHook, bind, getThis, setHooks. cbn. rewrite Hf.
    now destruct w as [p [] r].
  - intros w'. unfold after, removeHook, bind, getThis, setHooks. cbn.
    now rewrite filter_idempotent.
Qed.

Lemma addHook_removeHook_round_trip_witness :
  (forall h, In h (hooks (this hookedWorld)) -> Hook.name h <> "trace")
  /\ after (addHook "trace" clearAll (Some 0) ;; removeHook "trace") hookedWorld
     = hookedWorld
  /\ after (removeHook "trace") hookedWorld = hookedWorld
  /\ (forall w', after (removeHook "trace" ;; removeHook "trace") w'
                 = after (removeHook "trace") w').
Proof.
  assert (H : forall h, In h (hooks (this hookedWorld)) -> Hook.name h <> "trace").
  { intros h Hh. vm_compute in Hh. destruct Hh as [<- | []]. discriminate. }
  split; [exact H | exact (addHook_removeHook_round_trip _ _ clearAll (Some 0) H)].
Defined.

Lemma StronglySorted_snoc (hs : list Hook.t) (h : Hook.t) :
  StronglySorted (keyLeq Hook.index) hs ->
  Forall (fun h' => Hook.index h' <= Hook.index h) hs ->
  StronglySorted (keyLeq Hook.index) (hs ++ [h]).
Proof.
  induction 1 as [|x hs Hs IH Hall]; intros Hb; cbn [app].
  - repeat constructor.
  - inversion Hb as [|? ? Hx Hb']; subst. constructor; [now apply IH|].
    apply Forall_app. split; [exact Hall | repeat constructor; exact Hx].
Qed.

Lemma addHooks_default_order (calls : list HookCall) (w : World) :
  Forall withoutIndex calls -> inDefaultOrder (hooks (this w)) ->
  inDefaultOrder (hooks (this (after (addHooks calls) w)))
  /\ map Hook.name (hooks (this (after (addHooks calls) w)))
     = map Hook.name (hooks (this w)) ++ map (fun c => fst (fst c)) calls.
Proof.
  revert w. induction calls as [|[[name cb] i] calls IH]; intros w Hc Hw.
  - cbn [addHooks map]. rewrite app_nil_r. now split.
  - inversion Hc as [|? ? Hi Hc']; subst. unfold withoutIndex in Hi. cbn [snd] in Hi. subst i.
    cbn [addHooks]. rewrite addHook_after.
    destruct (IH (after (addHook name cb None) w) Hc') as (H1 & H2).
    + rewrite addHook_hooks. destruct Hw as (Hs & Hb). split.
      * apply StronglySorted_snoc; [exact Hs|].
        eapply Forall_impl; [|exact Hb]. unfold hookOf, defaultIndex. cbn. intros; lia.
      * rewrite length_app. cbn [length]. apply Forall_app. split.
        -- eapply Forall_impl; [|exact Hb]. cbn. intros; lia.
        -- repeat constructor. unfold hookOf, defaultIndex. cbn. lia.
    + split; [exact H1|]. rewrite H2, addHook_hooks, map_app. cbn [map fst].
      now rewrite <- app_assoc.
Qed.

(** X16. On a session without hooks, hooks added without an index are called in
    the order in which they were added: the sort of [addHeaders] leaves the
    array as it is. *)
Theorem hooks_without_index_run_in_order :
  forall (w : World) (calls : list HookCall),
    hooks (this w) = [] ->
    Forall withoutIndex calls ->
    sortedHooks (this (after (addHooks calls) w)) = hooks (this (after (addHooks calls) w))
    /\ map Hook.name (sortedHooks (this (after (addHooks calls) w)))
       = map (fun c => fst (fst c)) calls
    /\ length (hooks (this (after (addHooks calls) w))) = length calls.
Proof.
  intros w calls Hw Hc.
  destruct (addHooks_default_order calls w Hc) as ((Hs & _) & Hn).
  { rewrite Hw. split; constructor. }
  assert (E : sortedHooks (this (after (addHooks calls) w))
              = hooks (this (after (addHooks calls) w)))
    by (apply (Array_sort_sorted_id Hook.index), Hs).
  split; [exact E|]. rewrite E, Hn, Hw. cbn [map app]. split; [reflexivity|].
  rewrite <- (length_map Hook.name), Hn, Hw. cbn [map app]. apply length_map.
Qed.

Lemma hooks_without_index_run_in_order_witness :
  hooks (this (requestWorld modernChrome)) = []
  /\ Forall withoutIndex twoDefaultHooks
  /\ sortedHooks (this (after (addHooks twoDefaultHooks) (requestWorld modernChrome)))
     = hooks (this (after (addHooks twoDefaultHooks) (requestWorld modernChrome)))
  /\ map Hook.name
       (sortedHooks (this (after (addHooks twoDefaultHooks) (requestWorld modernChrome))))
     = map (fun c => fst (fst c)) twoDefaultHooks
  /\ length (hooks (this (after (addHooks twoDefaultHooks) (requestWorld modernChrome))))
     = length twoDefaultHooks.
Proof.
  assert (Hc : Forall withoutIndex twoDefaultHooks) by (repeat constructor).
  split; [reflexivity|]. split; [exact Hc|].
  exact (hooks_without_index_run_in_order (requestWorld modernChrome) _ eq_refl Hc).
Defined.

(** X17. The index [hooks.length + 1] that [addHook] gives by default can be below
    the index of a hook that is registered, as it is after hooks were
    removed; the new hook is then called before that hook, although it was
    added after it. *)
Theorem default_index_can_run_earlier :
  forall (w : World) (h : Hook.t) (name : string) (cb : Metrics -> Metrics),
    In h (hooks (this w)) ->
    defaultIndex w < Hook.index h ->
    exists l1 l2 l3,
      sortedHooks (this (after (addHook name cb None) w))
      = l1 ++ hookOf name cb (defaultIndex w) :: l2 ++ h :: l3.
Proof.
  intros w h name cb Hin Hlt.
  apply (Array_sort_smaller_first Hook.index); [| |exact Hlt];
    rewrite addHook_hooks; apply in_or_app; [right; now left | now left].
Qed.

Lemma default_index_can_run_earlier_witness :
  In (hookOf "c" keepAll 3) (hooks (this shrunkWorld))
  /\ defaultIndex shrunkWorld < Hook.index (hookOf "c" keepAll 3)
  /\ exists l1 l2 l3,
      sortedHooks (this (after (addHook "d" clearAll None) shrunkWorld))
      = l1 ++ hookOf "d" clearAll (defaultIndex shrunkWorld) :: l2 ++
        hookOf "c" keepAll 3 :: l3.
Proof.
  assert (Hin : In (hookOf "c" keepAll 3) (hooks (this shrunkWorld)))
    by (left; reflexivity).
  assert (Hlt : defaultIndex shrunkWorld < Hook.index (hookOf "c" keepAll 3))
    by (vm_compute; reflexivity).
  split; [exact Hin|]. split; [exact Hlt|].
  exact (default_index_can_run_earlier shrunkWorld _ "d" clearAll Hin Hlt).
Defined.

(** ** Metrics without [to] or without [from] *)

Lemma filter_length_Permutation {A : Type} (f : A -> bool) (l l' : list A) :
  Permutation l l' -> length (filter f l) = length (filter f l').
Proof.
  induction 1 as [|x l l' _ IH|x y l|l l' l'' _ IH1 _ IH2]; cbn [filter].
  - reflexivity.
  - destruct (f x); cbn [length]; now rewrite IH.
  - destruct (f x), (f y); reflexivity.
  - now rewrite IH1.
Qed.

Lemma renderEntries_In_clock (old : bool) (init : hrtime) (l : list (string * Metric.t))
    (p : Process) (e : string * Metric.t) :
  In e l ->
  exists k,
    (reads p <= k)%nat
    /\ (isOpen e = true -> (k < reads p + length (filter isOpen l))%nat)
    /\ In (fst (renderEntry old init {| readings := readings p; reads := k |} e))
          (fst (renderEntries old init p l)).
Proof.
  revert p. induction l as [|e' l IH]; intros p Hin; [destruct Hin|].
  cbn [renderEntries filter].
  destruct (renderEntry_clock old init p e') as (H1 & H2).
  destruct (renderEntry old init p e') as [x p1] eqn:E1. cbn [snd] in H1, H2.
  destruct Hin as [-> | Hin].
  - exists (reads p). split; [lia|]. split.
    + intros Ho. rewrite Ho. cbn [length]. lia.
    + replace {| readings := readings p; reads := reads p |} with p by now destruct p.
      rewrite E1. destruct (renderEntries old init p1 l) as [xs p2]. now left.
  - destruct (IH p1 Hin) as (k & Hk1 & Hk2 & Hk3).
    exists k. split; [lia|]. split.
    + intros Ho. specialize (Hk2 Ho). destruct (isOpen e'); cbn [length]; lia.
    + rewrite H1 in Hk3. destruct (renderEntries old init p1 l) as [xs p2]. now right.
Qed.

(** X18. In a finalization every metric without [to] ends at a reading that the
    finalization takes from the clock, one reading for each such metric, and
    every metric without [from] starts at the time of initialization: the
    fragment of a metric has its duration when that is defined and not 0, and
    otherwise the distance between these two timestamps. *)
Theorem open_metrics_end_at_finalization :
  forall (w : World) (n : string) (m : Metric.t),
    headerSent (response w) = false ->
    In (n, m) (updatedMetrics (this w)) ->
    (exists k values,
        (reads (process w) <= k)%nat
        /\ (Metric.to m = None -> (k < reads (process (after addHeaders w)))%nat)
        /\ headers (response (after addHeaders w)) = HArray values
        /\ In (fragment (oldSpecification (this w)) n (Metric.description m)
                 (orElse (Metric.duration m)
                    (Z.abs (toMilliseconds (endOf (readings (process w) k) m)
                            - toMilliseconds (startOf (this w) m))))) values)
    /\ reads (process (after addHeaders w))
       = (reads (process w) + length (filter isOpen (updatedMetrics (this w))))%nat
    /\ readings (process (after addHeaders w)) = readings (process w).
Proof.
  intros w n m Hs Hin.
  assert (Hp : process (after addHeaders w)
               = snd (renderEntries (oldSpecification (this w)) (initialized (this w))
                        (process w) (Object_entries (updatedMetrics (this w))))).
  { unfold after. now rewrite (addHeaders_not_sent w Hs). }
  destruct (renderEntries_clock (oldSpecification (this w)) (initialized (this w))
              (Object_entries (updatedMetrics (this w))) (process w)) as (Hr1 & Hr2).
  rewrite <- Hp in Hr1, Hr2.
  assert (Hlen : length (filter isOpen (Object_entries (updatedMetrics (this w))))
                 = length (filter isOpen (updatedMetrics (this w))))
    by apply filter_length_Permutation, Object_entries_Permutation.
  split; [|split; [now rewrite Hr2, Hlen | exact Hr1]].
  apply Object_entries_In in Hin.
  destruct (renderEntries_In_clock (oldSpecification (this w)) (initialized (this w))
              _ (process w) _ Hin) as (k & Hk1 & Hk2 & Hk3).
  fold (rendered w) in Hk3.
  assert (Hf : fst (renderEntry (oldSpecification (this w)) (initialized (this w))
                      {| readings := readings (process w); reads := k |} (n, m))
               = fragment (oldSpecification (this w)) n (Metric.description m)
                   (orElse (Metric.duration m)
                      (Z.abs (toMilliseconds (endOf (readings (process w) k) m)
                              - toMilliseconds (startOf (this w) m))))).
  { unfold renderEntry, endOf, startOf. cbn [fst snd].
    destruct (Metric.to m); cbn [fst hrtimeOf readings reads];
      now rewrite buildHeader_fragment. }
  rewrite Hf in Hk3.
  destruct (rendered_in_header w _ Hs Hk3) as (Hh & Hx).
  exists k. eexists. split; [exact Hk1|]. split; [|split; [exact Hh | exact Hx]].
  intros Ht. rewrite Hr2. apply Hk2. unfold isOpen. cbn [snd]. now rewrite Ht.
Qed.

Lemma open_metrics_end_at_finalization_witness :
  headerSent (response threeMetricsWorld) = false
  /\ In ("10", startedMetric (after (add "db" (Some "query") (Some 5))
                                    (requestWorld modernChrome)) "10" None)
        (updatedMetrics (this threeMetricsWorld))
  /\ (exists k values,
         (reads (process threeMetricsWorld) <= k)%nat
         /\ (Metric.to (startedMetric (after (add "db" (Some "query") (Some 5))
                                             (requestWorld modernChrome)) "10" None)
             = None -> (k < reads (process (after addHeaders threeMetricsWorld)))%nat)
         /\ headers (response (after addHeaders threeMetricsWorld)) = HArray values
         /\ In (fragment (oldSpecification (this threeMetricsWorld)) "10"
                  (Metric.description
                     (startedMetric (after (add "db" (Some "query") (Some 5))
                                           (requestWorld modernChrome)) "10" None))
                  (orElse (Metric.duration
                             (startedMetric (after (add "db" (Some "query") (Some 5))
                                                   (requestWorld modernChrome)) "10" None))
                     (Z.abs (toMilliseconds
                               (endOf (readings (process threeMetricsWorld) k)
                                  (startedMetric (after (add "db" (Some "query") (Some 5))
                                                        (requestWorld modernChrome))
                                     "10" None))
                             - toMilliseconds
                                 (startOf (this threeMetricsWorld)
                                    (startedMetric (after (add "db" (Some "query") (Some 5))
                                                          (requestWorld modernChrome))
                                       "10" None)))))) values)
  /\ reads (process (after addHeaders threeMetricsWorld))
     = (reads (process threeMetricsWorld)
        + length (filter isOpen (updatedMetrics (this threeMetricsWorld))))%nat
  /\ readings (process (after addHeaders threeMetricsWorld))
     = readings (process threeMetricsWorld).
Proof.
  assert (Hin : In ("10", startedMetric (after (add "db" (Some "query") (Some 5))
                                               (requestWorld modernChrome)) "10" None)
                   (updatedMetrics (this threeMetricsWorld)))
    by (right; left; reflexivity).
  split; [reflexivity|]. split; [exact Hin|].
  exact (open_metrics_end_at_finalization threeMetricsWorld _ _ eq_refl Hin).
Defined.

(** ** The middleware *)

(** X19. For every request the middleware creates a session without metrics and
    without hooks, initialised with one reading of the clock and holding the
    option [sendHeaders] ([true] when it is not given); it leaves the header
    of the response alone.  A request without user-agent header gets the
    current format.  When nothing is recorded, a finalization completes and
    leaves the response as it is. *)
Theorem middleware_creates_a_fresh_session :
  forall (given : option bool) (request : Request) (res : Response) (p : Process),
    metrics (this (serverTimingMiddleware given request res p)) = []
    /\ hooks (this (serverTimingMiddleware given request res p)) = []
    /\ initialized (this (serverTimingMiddleware given request res p))
       = readings p (reads p)
    /\ reads (process (serverTimingMiddleware given request res p)) = S (reads p)
    /\ sendHeaders (this (serverTimingMiddleware given request res p))
       = match given with Some b => b | None => true end
    /\ headers (response (serverTimingMiddleware given request res p)) = headers res
    /\ headerSent (response (serverTimingMiddleware given request res p))
       = headerSent res
    /\ (userAgentHeader request = None ->
        oldSpecification (this (serverTimingMiddleware given request res p)) = false)
    /\ (headerSent res = false ->
        completionOf addHeaders (serverTimingMiddleware given request res p) = Normal tt
        /\ response (after addHeaders (serverTimingMiddleware given request res p))
           = response (serverTimingMiddleware given request res p)).
Proof.
  intros given request res p.
  assert (Hr : forall b : bool,
             headerSent (if b then onHeaders res CallAddHeaders else res)
             = headerSent res) by (intros []; reflexivity).
  assert (Hh : forall b : bool,
             headers (if b then onHeaders res CallAddHeaders else res)
             = headers res) by (intros []; reflexivity).
  unfold serverTimingMiddleware, constructor, hrtimeOf. cbn [this process response
    metrics hooks initialized sendHeaders oldSpecification reads].
  split; [reflexivity|]. split; [reflexivity|]. split; [reflexivity|].
  split; [reflexivity|]. split; [reflexivity|]. split; [apply Hh|].
  split; [apply Hr|]. split; [intros ->; reflexivity|].
  intros Hs. unfold completionOf, after.
  rewrite addHeaders_not_sent by (cbn [response]; now rewrite Hr).
  cbn [fst snd]. split; [reflexivity|]. now apply finalized_response_unchanged.
Qed.

(** ** Measuring between two points *)

Lemma ownProperty_In (ms : Metrics) (name : string) (m : Metric.t) :
  ownProperty ms name = Some m -> In (name, m) ms.
Proof.
  induction ms as [|[k m'] ms IH]; cbn [ownProperty]; [discriminate|].
  destruct (String.eqb k name) eqn:E.
  - apply String.eqb_eq in E. intros [= <-]. subst. now left.
  - intros H. right. now apply IH.
Qed.

Lemma after_bind_normal {A B : Type} (m : JS A) (k : JS B) (w : World) (a : A) :
  completionOf m w = Normal a -> (m ;; k) w = k (after m w).
Proof.
  unfold completionOf, after, bind. destruct (m w) as [c w1]. cbn [fst snd].
  now intros ->.
Qed.

(** X20. For a valid name that [Object.prototype] does not define and whose metric
    has no duration, on a session without hooks: [from(name, text)], then
    [to(name)], then the finalization put in the header the fragment of the
    name whose duration is the distance between the two readings that [from]
    and [to] took from the clock, one after the other. *)
Theorem from_then_to_measures :
  forall (w : World) (name : string) (text : option string),
    nameIsValid name = true -> isInherited name = false ->
    headerSent (response w) = false -> hooks (this w) = [] ->
    Metric.duration (metricOrEmpty (metrics (this w)) name) = None ->
    exists values,
      headers (response (after (from name text ;; to name None ;; addHeaders) w))
      = HArray values
      /\ In (fragment (oldSpecification (this w)) name
               (Metric.description (startedMetric w name text))
               (Z.abs (toMilliseconds (readings (process w) (S (reads (process w))))
                       - toMilliseconds (readings (process w) (reads (process w))))))
            values.
Proof.
  intros w name text Hv Hi Hs Hh Hd.
  destruct (timestamped_set_own name FieldFrom text w Hv Hi) as (Hc1 & Hm1 & Hr1 & Hg1).
  fold (from name text) in Hc1, Hm1, Hr1, Hg1.
  unfold after at 1. rewrite (after_bind_normal _ _ w tt Hc1).
  set (w1 := after (from name text) w) in *.
  destruct (timestamped_set_own name FieldTo None w1 Hv Hi) as (Hc2 & Hm2 & _ & _).
  fold (to name None) in Hc2, Hm2.
  rewrite (after_bind_normal _ _ w1 tt Hc2).
  set (w2 := after (to name None) w1) in *.
  fold (after addHeaders w2).
  destruct (perform_recorded (CallFrom text) name w)
    as (_ & Hh1 & Ho1 & _ & _ & Hp1 & _ & _).
  destruct (perform_recorded (CallTo None) name w1)
    as (_ & Hh2 & Ho2 & _ & _ & Hp2 & _ & _).
  cbn [perform] in Hh1, Ho1, Hp1, Hh2, Ho2, Hp2. fold w1 in Hh1, Ho1, Hp1, Hh2, Ho2, Hp2.
  fold w2 in Hh2, Ho2, Hp2.
  assert (Hs2 : headerSent (response w2) = false) by (rewrite Hp2, Hp1; exact Hs).
  assert (Hu : updatedMetrics (this w2) = metrics (this w2)).
  { unfold updatedMetrics, sortedHooks. now rewrite Hh2, Hh1, Hh. }
  unfold metricOrEmpty in Hm2 at 1. rewrite Hm1 in Hm2.
  unfold nextReading in Hm2. rewrite Hg1, Hr1 in Hm2. cbn [describedBy] in Hm2.
  apply ownProperty_In in Hm2. rewrite <- Hu in Hm2. apply Object_entries_In in Hm2.
  destruct (renderEntries_In (oldSpecification (this w2)) (initialized (this w2))
              _ (process w2) _ Hm2) as (p' & Hp').
  fold (rendered w2) in Hp'.
  assert (Hf : Metric.from (startedMetric w name text) = Some (nextReading w)
               /\ Metric.duration (startedMetric w name text) = None).
  { unfold startedMetric, describedBy.
    destruct text as [d|]; [destruct (truthyString d)|]; cbn; now split. }
  destruct Hf as (Hf1 & Hf2).
  change (describedBy text
            (assignField (metricOrEmpty (metrics (this w)) name)
               (FieldFrom (readings (process w) (reads (process w))))))
    with (startedMetric w name text) in Hp'.
  unfold renderEntry in Hp'. cbn [fst snd assignField Metric.from Metric.to
    Metric.description Metric.duration] in Hp'.
  rewrite Hf1, Hf2 in Hp'. cbn [fst] in Hp'. rewrite buildHeader_fragment in Hp'.
  cbn [hm_name hm_description hm_duration hm_from hm_to orElse] in Hp'.
  unfold calculateDuration, nextReading in Hp'. rewrite Ho2, Ho1 in Hp'.
  destruct (rendered_in_header w2 _ Hs2 Hp') as (Hhd & Hx).
  eexists. split; [exact Hhd | exact Hx].
Qed.

Lemma from_then_to_measures_witness :
  nameIsValid "userData" = true /\ isInherited "userData" = false
  /\ headerSent (response silentWorld) = false /\ hooks (this silentWorld) = []
  /\ Metric.duration (metricOrEmpty (metrics (this silentWorld)) "userData") = None
  /\ exists values,
      headers (response (after (from "userData" (Some "user data") ;;
                                to "userData" None ;; addHeaders) silentWorld))
      = HArray values
      /\ In (fragment (oldSpecification (this silentWorld)) "userData"
               (Metric.description (startedMetric silentWorld "userData"
                                      (Some "user data")))
               (Z.abs (toMilliseconds
                         (readings (process silentWorld) (S (reads (process silentWorld))))
                       - toMilliseconds
                           (readings (process silentWorld) (reads (process silentWorld))))))
            values.
Proof.
  split; [reflexivity|]. split; [reflexivity|]. split; [reflexivity|].
  split; [reflexivity|]. split; [reflexivity|].
  apply from_then_to_measures; reflexivity.
Defined.

(** ** The version that is read in the user agent *)

Lemma space_char_matches (a : ascii) :
  RegExp.atomMatches true (RegExp.Char " ") a = Ascii.eqb a " ".
Proof.
  destruct a as [[] [] [] [] [] [] [] []]; vm_compute; reflexivity.
Qed.

Lemma letter_C_matches (b : ascii) :
  RegExp.atomMatches true (RegExp.Char "C") b = (Ascii.eqb b "c" || Ascii.eqb b "C").
Proof.
  destruct b as [[] [] [] [] [] [] [] []]; vm_compute; reflexivity.
Qed.

Lemma chrome_pattern_needs_space_C (c : RegExp.Cursor) :
  match RegExp.rest c with
  | String a (String b _) => Ascii.eqb a " " && (Ascii.eqb b "c" || Ascii.eqb b "C")
  | _ => false
  end = false ->
  RegExp.matchHere true chromeVersionPattern c = [].
Proof.
  intros H. unfold chromeVersionPattern.
  change (RegExp.literal " Chrome/")
    with (RegExp.Seq (RegExp.One (RegExp.Char " "))
            (RegExp.Seq (RegExp.One (RegExp.Char "C")) (RegExp.literal "hrome/"))).
  cbn [RegExp.matchHere].
  destruct (RegExp.rest c) as [|a s]; [reflexivity|].
  rewrite space_char_matches. destruct (Ascii.eqb a " "); [|reflexivity].
  cbn [flat_map RegExp.rest]. destruct s as [|b s]; [reflexivity|].
  rewrite letter_C_matches. cbn [andb] in H. rewrite H. reflexivity.
Qed.

Lemma execFrom_step (ignoreCase : bool) (p : RegExp.Pattern) (i : nat)
    (a : ascii) (s : string) :
  RegExp.matchHere ignoreCase p
    {| RegExp.rest := String a s; RegExp.index := i; RegExp.captures := [] |} = [] ->
  RegExp.execFrom ignoreCase p i (String a s) = RegExp.execFrom ignoreCase p (S i) s.
Proof. intros H. cbn [RegExp.execFrom]. now rewrite H. Qed.

Lemma execFrom_skips (pre tail : string) (i : nat) :
  noWordStartsWithC pre = true ->
  RegExp.execFrom true chromeVersionPattern i (pre ++ String " " tail)%string
  = RegExp.execFrom true chromeVersionPattern (i + String.length pre) (String " " tail).
Proof.
  revert i. induction pre as [|a pre IH]; intros i H.
  - cbn [append String.length]. now rewrite Nat.add_0_r.
  - cbn [append String.length]. rewrite execFrom_step.
    + rewrite IH; [f_equal; lia|]. cbn [noWordStartsWithC] in H.
      now apply andb_true_iff in H.
    + apply chrome_pattern_needs_space_C.
      cbn [RegExp.rest]. cbn [noWordStartsWithC] in H.
      apply andb_true_iff in H. destruct H as (H & _).
      destruct pre as [|b pre]; cbn [append].
      * now rewrite andb_false_r.
      * now apply negb_true_iff in H.
Qed.

Lemma digit_not_end (c : ascii) :
  isDigit c = true -> RegExp.isLineTerminator c = false.
Proof.
  destruct c as [[] [] [] [] [] [] [] []]; vm_compute; intros H;
    try reflexivity; discriminate H.
Qed.

(** The ways [[\d]+] matches digits that are followed by something else: all
    of them first, then all but the last. *)
Lemma plusMatches_all_digits (ds tail : string) :
  allDigits ds = true -> ds <> EmptyString ->
  match tail with String c _ => isDigit c | EmptyString => false end = false ->
  exists l,
    RegExp.plusMatches true (RegExp.Class isDigit) (ds ++ tail)%string
    = (String.length ds, tail) :: l.
Proof.
  intros Hd Hne Ht. induction ds as [|a ds IH]; [congruence|].
  cbn [allDigits] in Hd. apply andb_true_iff in Hd. destruct Hd as (Ha & Hd).
  cbn [append RegExp.plusMatches String.length]. rewrite digitClass_ignoreCase, Ha.
  destruct ds as [|b ds].
  - cbn [append]. exists []. destruct tail as [|c tail]; cbn [RegExp.plusMatches].
    + reflexivity.
    + rewrite digitClass_ignoreCase, Ht. reflexivity.
  - destruct (IH Hd ltac:(discriminate)) as (l & ->).
    cbn [map app]. eauto.
Qed.

Lemma plusMatches_all_but_last (ds tail : string) (d : ascii) :
  allDigits ds = true -> ds <> EmptyString -> isDigit d = true ->
  match tail with String c _ => isDigit c | EmptyString => false end = false ->
  exists l,
    RegExp.plusMatches true (RegExp.Class isDigit) (ds ++ String d tail)%string
    = (S (String.length ds), tail) :: (String.length ds, String d tail) :: l.
Proof.
  intros Hd Hne Hdd Ht. induction ds as [|a ds IH]; [congruence|].
  cbn [allDigits] in Hd. apply andb_true_iff in Hd. destruct Hd as (Ha & Hd).
  cbn [append RegExp.plusMatches String.length]. rewrite digitClass_ignoreCase, Ha.
  destruct ds as [|b ds].
  - cbn [append RegExp.plusMatches]. rewrite digitClass_ignoreCase, Hdd.
    exists []. destruct tail as [|c tail]; cbn [RegExp.plusMatches].
    + reflexivity.
    + rewrite digitClass_ignoreCase, Ht. reflexivity.
  - destruct (IH Hd ltac:(discriminate)) as (l & ->).
    cbn [map app]. eauto.
Qed.

Lemma substring_prefix (s tail : string) :
  substring 0 (String.length s) (s ++ tail) = s.
Proof.
  induction s as [|c s IH]; cbn [append String.length substring].
  - now destruct tail.
  - now rewrite IH.
Qed.

Lemma literal_chrome_matches (s : string) (i : nat) :
  RegExp.matchHere true (RegExp.literal " Chrome/")
    {| RegExp.rest := (" Chrome/" ++ s)%string; RegExp.index := i;
       RegExp.captures := [] |}
  = [{| RegExp.rest := s; RegExp.index := 8 + i; RegExp.captures := [] |}].
Proof. reflexivity. Qed.

Lemma parseInt_digits (ds : string) :
  allDigits ds = true -> ds <> EmptyString -> parseInt ds = Int (parseDigits 0 ds).
Proof.
  intros Hd Hne. destruct ds as [|c ds]; [congruence|].
  cbn [allDigits] in Hd. apply andb_true_iff in Hd. destruct Hd as (Hc & _).
  unfold parseInt. now rewrite Hc.
Qed.

(** What the pattern gives at [" Chrome/"] followed by digits. *)
Lemma exec_at_chrome (ds tail : string) (i : nat) :
  allDigits ds = true -> ds <> EmptyString ->
  (endsVersion tail = true ->
   RegExp.execFrom true chromeVersionPattern i (" Chrome/" ++ ds ++ tail)%string
   = Some [ds])
  /\ (forall d, isDigit d = true -> endsLine tail = true ->
      RegExp.execFrom true chromeVersionPattern i
        (" Chrome/" ++ ds ++ String d tail)%string = Some [ds]).
Proof.
  intros Hd Hne. split.
  - intros Ht. destruct tail as [|c tail]; [discriminate Ht|].
    cbn [endsVersion] in Ht. apply andb_true_iff in Ht. destruct Ht as (Hc1 & Hc2).
    apply negb_true_iff in Hc1.
    destruct (plusMatches_all_digits ds (String c tail) Hd Hne Hc1) as (l & Hl).
    change (" Chrome/" ++ ds ++ String c tail)%string
      with (String " " ("Chrome/" ++ ds ++ String c tail))%string.
    cbn [RegExp.execFrom]. unfold chromeVersionPattern at 1. cbn [RegExp.matchHere].
    change (String " " ("Chrome/" ++ ds ++ String c tail))%string
      with (" Chrome/" ++ (ds ++ String c tail))%string.
    rewrite literal_chrome_matches. cbn [flat_map RegExp.rest RegExp.index
      RegExp.captures]. rewrite Hl. cbn [map flat_map RegExp.rest RegExp.index
      RegExp.captures RegExp.matchHere app].
    unfold RegExp.atomMatches. rewrite Hc2. cbn [app RegExp.captures].
    replace (8 + i + String.length ds - (8 + i))%nat with (String.length ds) by lia.
    now rewrite substring_prefix.
  - intros d Hdd Ht.
    assert (Ht' : match tail with String c _ => isDigit c | EmptyString => false end
                  = false).
    { destruct tail as [|c tail]; [reflexivity|]. cbn [endsLine] in Ht.
      destruct (isDigit c) eqn:E; [|reflexivity].
      apply digit_not_end in E. congruence. }
    destruct (plusMatches_all_but_last ds tail d Hd Hne Hdd Ht') as (l & Hl).
    change (" Chrome/" ++ ds ++ String d tail)%string
      with (String " " ("Chrome/" ++ ds ++ String d tail))%string.
    cbn [RegExp.execFrom]. unfold chromeVersionPattern at 1. cbn [RegExp.matchHere].
    change (String " " ("Chrome/" ++ ds ++ String d tail))%string
      with (" Chrome/" ++ (ds ++ String d tail))%string.
    rewrite literal_chrome_matches. cbn [flat_map RegExp.rest RegExp.index
      RegExp.captures]. rewrite Hl. cbn [map flat_map RegExp.rest RegExp.index
      RegExp.captures RegExp.matchHere app].
    unfold RegExp.atomMatches. rewrite (digit_not_end d Hdd).
    destruct tail as [|ch s']; [|cbn [endsLine] in Ht; rewrite Ht];
      cbn [negb app RegExp.captures];
      replace (8 + i + String.length ds - (8 + i))%nat with (String.length ds) by lia;
      now rewrite substring_prefix.
Qed.

Lemma version_read (pre ds tail : string) (sendHeaders' : option bool) (p : Process) :
  let userAgent := (pre ++ " Chrome/" ++ tail)%string in
  RegExp.execFrom true chromeVersionPattern (0 + String.length pre) (" Chrome/" ++ tail)
  = Some [ds] ->
  noWordStartsWithC pre = true -> allDigits ds = true -> ds <> EmptyString ->
  chromeVersionOf userAgent = Some (Int (parseDigits 0 ds))
  /\ oldSpecification (fst (constructor (Some userAgent) sendHeaders' p))
     = (parseDigits 0 ds <=? 64).
Proof.
  intros userAgent E Hpre Hd Hne.
  assert (V : chromeVersionOf userAgent = Some (Int (parseDigits 0 ds))).
  { unfold chromeVersionOf, RegExp.exec, userAgent.
    change (" Chrome/" ++ tail)%string with (String " " ("Chrome/" ++ tail))%string.
    rewrite execFrom_skips by exact Hpre.
    change (String " " ("Chrome/" ++ tail))%string with (" Chrome/" ++ tail)%string.
    rewrite E. unfold firstCapture. cbn [nth]. now rewrite parseInt_digits. }
  split; [exact V|].
  assert (C : isChromeOf userAgent = true) by (apply isChromeOf_contains; exists pre, tail; reflexivity).
  unfold constructor. destruct (hrtimeOf p). cbn [fst oldSpecification].
  rewrite C, V. cbn [andb greaterThan]. rewrite Z.gtb_ltb, Z.leb_antisym. reflexivity.
Qed.

(** X21. The version of Chrome that the constructor reads.  In a user agent
    whose Chrome token is the first word that starts with the letter c, the
    pattern needs a character after the digits of the version.  When the
    digits are followed by a character that is not a digit and does not end
    the line, all of them are the version.  When they end the user agent (or
    the line), the last digit is taken for that character and the version is
    the number made by the digits before it: a user agent that ends with
    Chrome/72 has version 7.  In both cases the flag [oldSpecification] says
    whether the version that was read is at most 64. *)
Theorem chrome_version_needs_a_following_character :
  forall (pre ds tail : string) (sendHeaders' : option bool) (p : Process),
    noWordStartsWithC pre = true -> allDigits ds = true -> ds <> EmptyString ->
    (endsVersion tail = true ->
     chromeVersionOf (pre ++ " Chrome/" ++ ds ++ tail) = Some (Int (parseDigits 0 ds))
     /\ oldSpecification
          (fst (constructor (Some (pre ++ " Chrome/" ++ ds ++ tail)%string)
                  sendHeaders' p))
        = (parseDigits 0 ds <=? 64))
    /\ (forall d : ascii, isDigit d = true -> endsLine tail = true ->
        chromeVersionOf (pre ++ " Chrome/" ++ ds ++ String d tail)
        = Some (Int (parseDigits 0 ds))
        /\ oldSpecification
             (fst (constructor (Some (pre ++ " Chrome/" ++ ds ++ String d tail)%string)
                     sendHeaders' p))
           = (parseDigits 0 ds <=? 64)).
Proof.
  intros pre ds tail sh p Hpre Hd Hne.
  destruct (exec_at_chrome ds tail (0 + String.length pre) Hd Hne) as (E1 & E2).
  split.
  - intros Ht. apply (version_read pre ds (ds ++ tail)); auto.
  - intros d Hdd Ht. apply (version_read pre ds (ds ++ String d tail)); auto.
Qed.

Lemma chrome_version_needs_a_following_character_witness :
  (noWordStartsWithC chromePrefix = true /\ allDigits "7" = true
   /\ "7" <> EmptyString)
  /\ chromeVersionOf (chromePrefix ++ " Chrome/72") = Some (Int 7)
  /\ oldSpecification
       (fst (constructor (Some (chromePrefix ++ " Chrome/72")%string) None secondsClock))
     = true
  /\ chromeVersionOf (chromePrefix ++ " Chrome/7.0.3626.121 Safari/537.36")
     = Some (Int 7).
Proof.
  assert (H1 : noWordStartsWithC chromePrefix = true) by reflexivity.
  assert (H2 : allDigits "7" = true) by reflexivity.
  assert (H3 : "7" <> EmptyString) by discriminate.
  split; [auto|].
  destruct (chrome_version_needs_a_following_character chromePrefix "7" EmptyString
              None secondsClock H1 H2 H3) as (_ & Hlast).
  destruct (Hlast "2"%char eq_refl eq_refl) as (V & F).
  destruct (chrome_version_needs_a_following_character chromePrefix "7"
              ".0.3626.121 Safari/537.36" None secondsClock H1 H2 H3) as (Hall & _).
  destruct (Hall eq_refl) as (V' & _).
  split; [exact V|]. split; [exact F | exact V'].
Defined.
